(** * PixelPerfect: the client-side image-transform pipeline

    A shallow embedding of the geometry of the crop overlay
    (components/CropOverlay.tsx), the brush overlay
    (components/BrushOverlay.tsx), the upload handler of the application
    shell (App.tsx) and the canvas services (services/imageProcessor.ts).
    Line numbers are those of src/components/CropOverlay.tsx for the crop
    overlay and of src/components/Icon.tsx for the other three, which that
    file holds one after the other.

    Numbers.  Every TypeScript [number] is modelled by an exact rational
    ([Q]): the development is about the arithmetic the code writes down, and
    rounding of IEEE doubles is abstracted away.  "Equal within floating
    tolerance" therefore reads as [==] on [Q] (equivalently: closer than
    every positive epsilon).  The only place where [Q] and JavaScript
    disagree on exact inputs is a division by zero ([Q] gives 0, JavaScript
    gives an infinity or NaN); every theorem below that goes through a
    division carries the hypothesis that keeps the divisor away from zero.

    Canvas sizes.  The one place where the platform turns a number the code
    computed into an integer is the assignment to a canvas's [width] and
    [height]; [canvas_dimension] models it, and the results of the canvas
    services carry both the number assigned and the dimension the canvas
    element has afterwards. *)

From Stdlib Require Import QArith Qabs Qround Lqa Bool List String Ascii.
From Stdlib Require Import ZArith Lia.
From Stdlib Require Import DecimalString.
Import ListNotations.

Local Open Scope Q_scope.

(** ** JavaScript arithmetic on rationals *)

(** [a < b] as a test. *)
Definition Qltb (a b : Q) : bool := negb (Qle_bool b a).

(** [Math.max(a, b)] and [Math.min(a, b)]. *)
Definition Math_max (a b : Q) : Q := if Qltb a b then b else a.
Definition Math_min (a b : Q) : Q := if Qltb b a then b else a.

(** [a !== 0] on numbers. *)
Definition nonzero (a : Q) : bool := negb (Qeq_bool a 0).

(** The host platform's part in [canvas.width = v] and [canvas.height = v]
    (it is not code of the repository: the [width] and [height] attributes
    of a canvas element are [unsigned long] attributes with the defaults 300
    and 150).  The number assigned is first converted to an unsigned 32-bit
    integer: truncated towards zero, then taken modulo 2^32. *)
Definition ToUint32 (v : Q) : Z :=
  (Z.quot (Qnum v) (Zpos (Qden v)) mod 2 ^ 32)%Z.

(** What the attribute holds afterwards: the converted value when it is at
    most 2^31 - 1, the attribute's default otherwise. *)
Definition canvas_dimension (default : Z) (v : Q) : Z :=
  let n := ToUint32 v in
  if (n <=? 2147483647)%Z then n else default.

(** [s.includes(sub)]: [sub] occurs somewhere in [s]. *)
Fixpoint includes (s sub : string) : bool :=
  String.prefix sub s ||
  match s with
  | EmptyString => false
  | String _ s' => includes s' sub
  end.

(** [h?.includes(sub)] used as a condition: [null] is falsy. *)
Definition includes_opt (h : option string) (sub : string) : bool :=
  match h with
  | Some s => includes s sub
  | None => false
  end.

(** [h === lit] for a nullable string. *)
Definition is_handle (h : option string) (lit : string) : bool :=
  match h with
  | Some s => String.eqb s lit
  | None => false
  end.

(** ** types.ts *)

Inductive CropUnit : Type := px | pct.

Record CropArea : Type := mkCropArea {
  crop_x : Q;
  crop_y : Q;
  crop_width : Q;
  crop_height : Q;
  crop_unit : CropUnit
}.

Definition set_x (c : CropArea) (v : Q) : CropArea :=
  mkCropArea v (crop_y c) (crop_width c) (crop_height c) (crop_unit c).
Definition set_y (c : CropArea) (v : Q) : CropArea :=
  mkCropArea (crop_x c) v (crop_width c) (crop_height c) (crop_unit c).
Definition set_width (c : CropArea) (v : Q) : CropArea :=
  mkCropArea (crop_x c) (crop_y c) v (crop_height c) (crop_unit c).
Definition set_height (c : CropArea) (v : Q) : CropArea :=
  mkCropArea (crop_x c) (crop_y c) (crop_width c) v (crop_unit c).

Record Point : Type := mkPoint { pt_x : Q; pt_y : Q }.

Record Stroke : Type := mkStroke {
  points : list Point;
  size : Q;
  color : string
}.

Inductive ExportFormat : Type := png | jpeg | webp.

Record ProcessingOptions : Type := mkOptions {
  scale : Q;
  maintainAspect : bool;
  crop : option CropArea;
  format : ExportFormat;
  quality : Q
}.

Inductive AppMode : Type := UPLOAD | EDIT | PREVIEW | MASK.

Record ImageState : Type := mkImageState {
  originalUrl : option string;
  currentUrl : option string;
  filename : string;
  image_width : Q;
  image_height : Q;
  fileSize : Z;
  image_type : string
}.

(** ** constants.ts *)

Definition MAX_FILE_SIZE_MB : Z := 10.
Definition ALLOWED_TYPES : list string :=
  ["image/jpeg"; "image/png"; "image/webp"]%string.

(** A pointer event, as far as the overlays read it. *)
Record PointerEvent : Type := mkPointerEvent { clientX : Q; clientY : Q }.

(** The canvas 2D calls the overlay and the compositor issue, in the order
    they are issued.  [drawImage] is the five-argument form (image,
    destination rectangle). *)
Inductive CanvasOp : Type :=
| clearRect (x y w h : Q)
| drawImage (dx dy dw dh : Q)
| set_lineCap (v : string)
| set_lineJoin (v : string)
| beginPath
| set_strokeStyle (v : string)
| set_lineWidth (v : Q)
| moveTo (x y : Q)
| lineTo (x y : Q)
| stroke.

(** The points a sequence of calls moves or draws a line to, in order. *)
Definition path_points (ops : list CanvasOp) : list Point :=
  flat_map (fun op =>
              match op with
              | moveTo x y => [mkPoint x y]
              | lineTo x y => [mkPoint x y]
              | _ => []
              end) ops.

(** ** components/CropOverlay.tsx *)

Module CropOverlay.

Record Props : Type := mkProps {
  width : Q;
  height : Q;
  aspectRatio : Q  (* 0 for free *)
}.

(** [startPos.current]: the pointer and the crop box when the gesture began. *)
Record StartPos : Type := mkStartPos {
  start_x : Q; start_y : Q;
  start_cx : Q; start_cy : Q; start_cw : Q; start_ch : Q
}.

(** The component's state: the three [useState] cells and the [startPos] ref. *)
Record State : Type := mkState {
  st_crop : CropArea;
  isDragging : bool;
  dragHandle : option string;
  startPos : StartPos
}.

(** State at mount, before the initialising effect has run. *)
Definition mount (p : Props) : State :=
  mkState (mkCropArea 0 0 (width p) (height p) px) false None
          (mkStartPos 0 0 0 0 0 0).

(** The initialising effect (lines 21-43): the new crop box.  It is both
    stored ([setCrop]) and emitted ([onCropChange]). *)
Definition initCrop (p : Props) : CropArea :=
  let initW := width p * (8 # 10) in
  let initH := height p * (8 # 10) in
  let '(initW, initH) :=
    if nonzero (aspectRatio p) then
      if Qltb (aspectRatio p) (width p / height p) then
        let initH := height p * (8 # 10) in
        let initW := initH * aspectRatio p in
        (initW, initH)
      else
        let initW := width p * (8 # 10) in
        let initH := initW / aspectRatio p in
        (initW, initH)
    else (initW, initH) in
  let initX := (width p - initW) / 2 in
  let initY := (height p - initH) / 2 in
  mkCropArea initX initY initW initH px.

Definition initEffect (p : Props) (st : State) : State * CropArea :=
  let newCrop := initCrop p in
  (mkState newCrop (isDragging st) (dragHandle st) (startPos st), newCrop).

Definition handlePointerDown (st : State) (e : PointerEvent) (handle : string)
  : State :=
  mkState (st_crop st) true (Some handle)
    (mkStartPos (clientX e) (clientY e)
       (crop_x (st_crop st)) (crop_y (st_crop st))
       (crop_width (st_crop st)) (crop_height (st_crop st))).

(** [handlePointerMove] (lines 61-96).  The second component is the region
    passed to [onCropChange], if the handler got that far. *)
Definition handlePointerMove (p : Props) (st : State) (e : PointerEvent)
  : State * option CropArea :=
  if negb (isDragging st) then (st, None) else
  let dx := clientX e - start_x (startPos st) in
  let dy := clientY e - start_y (startPos st) in
  let crop := st_crop st in
  let h := dragHandle st in
  let next := crop in
  let next :=
    if is_handle h "move" then
      let next := set_x next
        (Math_max 0 (Math_min (width p - crop_width crop)
                              (start_cx (startPos st) + dx))) in
      let next := set_y next
        (Math_max 0 (Math_min (height p - crop_height crop)
                              (start_cy (startPos st) + dy))) in
      next
    else
      let next :=
        if includes_opt h "e" then
          set_width next
            (Math_max 50 (Math_min (width p - crop_x crop)
                                   (start_cw (startPos st) + dx)))
        else next in
      let next :=
        if includes_opt h "s" then
          set_height next
            (Math_max 50 (Math_min (height p - crop_y crop)
                                   (start_ch (startPos st) + dy)))
        else next in
      if nonzero (aspectRatio p) then
        let next :=
          if includes_opt h "e" then
            set_height next (crop_width next / aspectRatio p)
          else next in
        let next :=
          if includes_opt h "s" then
            set_width next (crop_height next * aspectRatio p)
          else next in
        let next :=
          if Qltb (width p) (crop_width next + crop_x next) then
            let next := set_width next (width p - crop_x next) in
            set_height next (crop_width next / aspectRatio p)
          else next in
        let next :=
          if Qltb (height p) (crop_height next + crop_y next) then
            let next := set_height next (height p - crop_y next) in
            set_width next (crop_height next * aspectRatio p)
          else next in
        next
      else next in
  (mkState next (isDragging st) (dragHandle st) (startPos st), Some next).

Definition handlePointerUp (st : State) : State :=
  mkState (st_crop st) false None (startPos st).

(** What can happen to a mounted overlay: pointer events on its handles
    (the rendered handles are ["move"] and ["se"]). *)
Inductive Event : Type :=
| PointerDown (e : PointerEvent) (handle : string)
| PointerMove (e : PointerEvent)
| PointerUp.

Definition step (p : Props) (st : State) (ev : Event) : State :=
  match ev with
  | PointerDown e handle => handlePointerDown st e handle
  | PointerMove e => fst (handlePointerMove p st e)
  | PointerUp => handlePointerUp st
  end.

Definition run (p : Props) (st : State) (evs : list Event) : State :=
  fold_left (step p) evs st.

(** The overlay after mount and the initialising effect. *)
Definition initialized (p : Props) : State := fst (initEffect p (mount p)).

(** The region lies in the container [[0,W] x [0,H]]. *)
Definition inside (p : Props) (c : CropArea) : Prop :=
  0 <= crop_x c /\ 0 <= crop_y c /\
  crop_x c + crop_width c <= width p /\
  crop_y c + crop_height c <= height p.

(** The fixed minimum size. *)
Definition min_size (c : CropArea) : Prop :=
  50 <= crop_width c /\ 50 <= crop_height c.

(** What holds of every reachable region under a ratio locked to a
    positive value: it is inside the container, of positive size, and of
    the locked ratio. *)
Definition locked_inv (p : Props) (c : CropArea) : Prop :=
  inside p c /\ 0 < crop_width c /\ 0 < crop_height c /\
  crop_width c / crop_height c == aspectRatio p.

End CropOverlay.

(** ** components/BrushOverlay.tsx *)

Module BrushOverlay.

Record Props : Type := mkProps {
  width : Q;
  height : Q;
  brushSize : Q
}.

(** [getBoundingClientRect()] of the canvas. *)
Record DOMRect : Type := mkRect {
  rect_left : Q; rect_top : Q; rect_width : Q; rect_height : Q
}.

Record State : Type := mkState {
  isDrawing : bool;
  currentPoints : list Point;
  strokes : list Stroke
}.

Definition mount : State := mkState false [] [].

(** The colour of every stroke the overlay draws or stores. *)
Definition STROKE_COLOR : string := "rgba(255, 50, 50, 0.5)".

(** [getPoint]: client coordinates to canvas coordinates, one scale factor
    per axis.  [rect] is [None] when the canvas ref is not attached. *)
Definition getPoint (p : Props) (rect : option DOMRect) (e : PointerEvent)
  : Point :=
  match rect with
  | None => mkPoint 0 0
  | Some r =>
      let scaleX := width p / rect_width r in
      let scaleY := height p / rect_height r in
      mkPoint ((clientX e - rect_left r) * scaleX)
              ((clientY e - rect_top r) * scaleY)
  end.

Definition handlePointerDown (p : Props) (rect : option DOMRect) (st : State)
  (e : PointerEvent) : State :=
  mkState true [getPoint p rect e] (strokes st).

Definition handlePointerMove (p : Props) (rect : option DOMRect) (st : State)
  (e : PointerEvent) : State :=
  if negb (isDrawing st) then st
  else mkState (isDrawing st) (currentPoints st ++ [getPoint p rect e])
               (strokes st).

Definition handlePointerUp (p : Props) (st : State) : State :=
  if negb (isDrawing st) then st
  else
    let strokes' :=
      if (0 <? List.length (currentPoints st))%nat then
        strokes st ++ [mkStroke (currentPoints st) (brushSize p) STROKE_COLOR]
      else strokes st in
    mkState false [] strokes'.

(** A pointer event together with what the component sees when it
    arrives: its current props (the brush size can change between events)
    and the canvas rectangle. *)
Inductive Event : Type :=
| PointerDown (p : Props) (rect : option DOMRect) (e : PointerEvent)
| PointerMove (p : Props) (rect : option DOMRect) (e : PointerEvent)
| PointerUp (p : Props).

Definition step (st : State) (ev : Event) : State :=
  match ev with
  | PointerDown p rect e => handlePointerDown p rect st e
  | PointerMove p rect e => handlePointerMove p rect st e
  | PointerUp p => handlePointerUp p st
  end.

Definition run (st : State) (evs : list Event) : State :=
  fold_left step evs st.

(** One gesture: the pointer goes down, moves through [ms], goes up. *)
Definition gesture (d : Props * option DOMRect * PointerEvent)
  (ms : list (Props * option DOMRect * PointerEvent)) (u : Props)
  : list Event :=
  let '(dp, dr, de) := d in
  PointerDown dp dr de
    :: map (fun m => let '(mp, mr, me) := m in PointerMove mp mr me) ms
    ++ [PointerUp u].

(** The points a gesture records. *)
Definition gesture_points (d : Props * option DOMRect * PointerEvent)
  (ms : list (Props * option DOMRect * PointerEvent)) : list Point :=
  let '(dp, dr, de) := d in
  getPoint dp dr de
    :: map (fun m => let '(mp, mr, me) := m in getPoint mp mr me) ms.

(** A stroke as the overlay may persist it. *)
Definition well_formed (s : Stroke) : Prop :=
  points s <> [] /\ color s = STROKE_COLOR.

(** While a stroke is being drawn it has a point. *)
Definition drawing_has_point (st : State) : Prop :=
  isDrawing st = true -> currentPoints st <> [].

(** [drawStroke] of the repaint effect (lines 45-56): the path starts at
    the first point and joins the others in order; a stroke without points
    draws an empty path. *)
Definition drawStroke (s : Stroke) : list CanvasOp :=
  [beginPath; set_strokeStyle (color s); set_lineWidth (size s)]
  ++ (if (0 <? List.length (points s))%nat then
        match points s with
        | [] => []
        | p0 :: rest =>
            moveTo (pt_x p0) (pt_y p0)
              :: map (fun q => lineTo (pt_x q) (pt_y q)) rest
        end
      else [])
  ++ [stroke].

(** The repaint effect (lines 35-70).  [ctx] tells whether the canvas and
    its 2D context are there; without them the effect returns before it
    reports anything.  Otherwise it yields the calls made on the context and
    the strokes handed to [onStrokesChange]. *)
Definition repaint (p : Props) (ctx : bool) (st : State)
  : option (list CanvasOp * list Stroke) :=
  if negb ctx then None
  else
    Some ([clearRect 0 0 (width p) (height p);
           set_lineCap "round"; set_lineJoin "round"]
          ++ flat_map drawStroke (strokes st)
          ++ (if (0 <? List.length (currentPoints st))%nat then
                drawStroke (mkStroke (currentPoints st) (brushSize p)
                                     STROKE_COLOR)
              else []),
          strokes st).

(** Whether a handler sets state, so that the component renders again and
    the repaint effect (whose dependencies include the fresh
    [currentPoints] array) runs. *)
Definition sets_state (st : State) (ev : Event) : bool :=
  match ev with
  | PointerDown _ _ _ => true
  | PointerMove _ _ _ => isDrawing st
  | PointerUp _ => isDrawing st
  end.

Definition props_of (ev : Event) : Props :=
  match ev with
  | PointerDown p _ _ => p
  | PointerMove p _ _ => p
  | PointerUp p => p
  end.

End BrushOverlay.

(** ** App.tsx: the upload boundary *)

Module App.

(** A [File] of the file input. *)
Record File : Type := mkFile {
  file_name : string;
  file_type : string;
  file_size : Z
}.

Record State : Type := mkState {
  mode : AppMode;
  originalImage : option ImageState;
  previewUrl : option string;
  errorMessage : option string
}.

Definition initial : State := mkState UPLOAD None None None.

(** An [Image] whose [src] has been set and whose [onload] has not fired. *)
Record Loading : Type := mkLoading { load_url : string; load_file : File }.

(** [ALLOWED_TYPES.includes(t)]. *)
Definition allowed_type (t : string) : bool :=
  existsb (String.eqb t) ALLOWED_TYPES.

Definition msg_unsupported : string :=
  "Unsupported file format. Please use JPG, PNG, or WEBP.".

(** The template literal
    [`File too large. Max size is ${MAX_FILE_SIZE_MB}MB.`]. *)
Definition msg_too_large : string :=
  ("File too large. Max size is "
   ++ NilZero.string_of_int (Z.to_int MAX_FILE_SIZE_MB) ++ "MB.")%string.

(** [handleFileUpload] (lines 177-208).  [files] is [e.target.files];
    [createObjectURL] stands for [URL.createObjectURL].  The second
    component is the image load the handler started, if any. *)
Definition handleFileUpload (createObjectURL : File -> string) (st : State)
  (files : list File) : State * option Loading :=
  match files with
  | [] => (st, None)
  | file :: _ =>
      if negb (allowed_type (file_type file)) then
        (mkState (mode st) (originalImage st) (previewUrl st)
                 (Some msg_unsupported), None)
      else if (MAX_FILE_SIZE_MB * 1024 * 1024 <? file_size file)%Z then
        (mkState (mode st) (originalImage st) (previewUrl st)
                 (Some msg_too_large), None)
      else
        let url := createObjectURL file in
        (mkState (mode st) (originalImage st) (previewUrl st) None,
         Some (mkLoading url file))
  end.

(** The [img.onload] callback installed by [handleFileUpload]; [w], [h] are
    the decoded image's dimensions. *)
Definition onload (st : State) (l : Loading) (w h : Q) : State :=
  mkState EDIT
    (Some (mkImageState (Some (load_url l)) (Some (load_url l))
             (file_name (load_file l)) w h
             (file_size (load_file l)) (file_type (load_file l))))
    (Some (load_url l))
    (errorMessage st).

(** What the component renders, as far as the upload boundary is concerned:
    the upload screen with its error banner ([errorMessage && ...], so an
    empty message shows nothing), or the editor. *)
Inductive Screen : Type :=
| UploadScreen (banner : option string)
| EditorScreen.

Definition render (st : State) : Screen :=
  match mode st with
  | UPLOAD =>
      UploadScreen
        match errorMessage st with
        | Some m => if String.eqb m "" then None else Some m
        | None => None
        end
  | _ => EditorScreen
  end.

End App.

(** ** services/imageProcessor.ts *)

Module imageProcessor.

(** A decoded image, as [loadImage] resolves it. *)
Record HTMLImageElement : Type := mkImage { img_width : Q; img_height : Q }.

(** What the host platform answers: whether [getContext('2d')] yields a
    context and whether [toBlob] yields a blob. *)
Record Canvas : Type := mkCanvas { getContext_ok : bool; toBlob_ok : bool }.

(** How a promise ends; [Pending] is a promise that never settles. *)
Inductive Promise (A : Type) : Type :=
| Resolved (a : A)
| Rejected (msg : string)
| Pending.
Arguments Resolved {A} a.
Arguments Rejected {A} msg.
Arguments Pending {A}.

Definition format_name (f : ExportFormat) : string :=
  match f with png => "png" | jpeg => "jpeg" | webp => "webp" end.

(** The canvas [processImage] encodes: the numbers assigned to its
    [width] and [height] ([canvas_width], [canvas_height]), the width and
    height the canvas element then has ([element_width], [element_height]),
    the one [drawImage] call and the arguments of [toBlob]. *)
Record Processed : Type := mkProcessed {
  canvas_width : Q; canvas_height : Q;
  element_width : Z; element_height : Z;
  sx : Q; sy : Q; sw : Q; sh : Q;
  dw : Q; dh : Q;
  mimeType : string;
  toBlob_quality : Q
}.

(** [processImage] (lines 790-844), from the decoded image on. *)
Definition processImage (canvas : Canvas) (img : HTMLImageElement)
  (options : ProcessingOptions) : Promise Processed :=
  if negb (getContext_ok canvas) then Rejected "Could not get canvas context"
  else
  (* 1. Calculate Crop *)
  let '(sx, sy, sw, sh) :=
    match crop options with
    | Some c =>
        match crop_unit c with
        | pct =>
            ((crop_x c / 100) * img_width img,
             (crop_y c / 100) * img_height img,
             (crop_width c / 100) * img_width img,
             (crop_height c / 100) * img_height img)
        | px => (crop_x c, crop_y c, crop_width c, crop_height c)
        end
    | None => (0, 0, img_width img, img_height img)
    end in
  (* 2. Calculate Scale: options.scale || 1 *)
  let scale := if nonzero (scale options) then scale options else 1 in
  let dw := sw * scale in
  let dh := if maintainAspect options then sh * scale else sh * scale in
  if toBlob_ok canvas then
    Resolved (mkProcessed dw dh
                (canvas_dimension 300 dw) (canvas_dimension 150 dh)
                sx sy sw sh dw dh
                ("image/" ++ format_name (format options)) (quality options))
  else Rejected "Canvas conversion failed".

(** The canvas [expandImageCanvas] encodes: the computed size [newW],
    [newH] (assigned to the canvas's [width] and [height], and the size of
    the rectangle filled), the width and height the canvas element then has
    ([expanded_width], [expanded_height]), the fill and the position the
    image is drawn at. *)
Record Expanded : Type := mkExpanded {
  newW : Q; newH : Q;
  expanded_width : Z; expanded_height : Z;
  fillStyle : string;
  draw_dx : Q; draw_dy : Q
}.

(** [expandImageCanvas] (lines 847-885), from the decoded image on.  When
    [toBlob] yields nothing its promise is never settled. *)
Definition expandImageCanvas (canvas : Canvas) (img : HTMLImageElement)
  (aspectRatio : Q) (fillColor : string) : Promise Expanded :=
  let currentRatio := img_width img / img_height img in
  let newW := img_width img in
  let newH := img_height img in
  let '(newW, newH) :=
    if Qltb currentRatio aspectRatio then (img_height img * aspectRatio, newH)
    else (newW, img_width img / aspectRatio) in
  if negb (getContext_ok canvas) then Rejected "Context failed"
  else
  let dx := (newW - img_width img) / 2 in
  let dy := (newH - img_height img) / 2 in
  if toBlob_ok canvas then
    Resolved (mkExpanded newW newH
                (canvas_dimension 300 newW) (canvas_dimension 150 newH)
                fillColor dx dy)
  else Pending.

(** The canvas [compositeMaskOntoImage] encodes: its size and the calls
    made on its context. *)
Record Composite : Type := mkComposite {
  composite_width : Q; composite_height : Q;
  composite_ops : list CanvasOp
}.

(** [compositeMaskOntoImage] (lines 888-927), from the decoded image on:
    the image stretched over the canvas, then every stroke. *)
Definition compositeMaskOntoImage (canvas : Canvas) (img : HTMLImageElement)
  (strokes : list Stroke) (originalWidth originalHeight : Q)
  : Promise Composite :=
  if negb (getContext_ok canvas) then Rejected "Context failed"
  else
  let ops :=
    [drawImage 0 0 originalWidth originalHeight;
     set_lineCap "round"; set_lineJoin "round"]
    ++ flat_map
         (fun stroke' =>
            [beginPath; set_strokeStyle (color stroke');
             set_lineWidth (size stroke')]
            ++ (if (0 <? List.length (points stroke'))%nat then
                  match points stroke' with
                  | [] => []
                  | p0 :: rest =>
                      moveTo (pt_x p0) (pt_y p0)
                        :: map (fun q => lineTo (pt_x q) (pt_y q)) rest
                  end
                else [])
            ++ [stroke])
         strokes in
  if toBlob_ok canvas then
    Resolved (mkComposite originalWidth originalHeight ops)
  else Rejected "Mask composite failed".

End imageProcessor.

(** ** components/ComparisonSlider.tsx *)

Module ComparisonSlider.

Record State : Type := mkState {
  sliderPosition : Q;   (* a percentage *)
  isDragging : bool
}.

Definition mount : State := mkState 50 false.

(** [handleMove] (lines 15-22); [rect] is the container's bounding
    rectangle, [None] when the ref is not attached. *)
Definition handleMove (rect : option BrushOverlay.DOMRect) (st : State)
  (clientX : Q) : State :=
  match rect with
  | None => st
  | Some r =>
      let x :=
        Math_max 0 (Math_min (clientX - BrushOverlay.rect_left r)
                             (BrushOverlay.rect_width r)) in
      let percentage := (x / BrushOverlay.rect_width r) * 100 in
      mkState percentage (isDragging st)
  end.

Definition handlePointerDown (st : State) : State :=
  mkState (sliderPosition st) true.
Definition handlePointerUp (st : State) : State :=
  mkState (sliderPosition st) false.
Definition handlePointerMove (rect : option BrushOverlay.DOMRect)
  (st : State) (e : PointerEvent) : State :=
  if isDragging st then handleMove rect st (clientX e) else st.

(** The window listeners of the effect (lines 32-46); they are registered
    only while dragging. *)
Definition handleGlobalUp (st : State) : State :=
  if isDragging st then mkState (sliderPosition st) false else st.
Definition handleGlobalMove (rect : option BrushOverlay.DOMRect)
  (st : State) (clientX : Q) : State :=
  if isDragging st then
    (if isDragging st then handleMove rect st clientX else st)
  else st.

Inductive Event : Type :=
| PointerDown
| PointerUp
| PointerMove (rect : option BrushOverlay.DOMRect) (e : PointerEvent)
| WindowMouseUp
| WindowMouseMove (rect : option BrushOverlay.DOMRect) (clientX : Q).

Definition step (st : State) (ev : Event) : State :=
  match ev with
  | PointerDown => handlePointerDown st
  | PointerUp => handlePointerUp st
  | PointerMove rect e => handlePointerMove rect st e
  | WindowMouseUp => handleGlobalUp st
  | WindowMouseMove rect x => handleGlobalMove rect st x
  end.

Definition run (st : State) (evs : list Event) : State :=
  fold_left step evs st.

(** The rectangle an event measures, if any. *)
Definition rect_of (ev : Event) : option BrushOverlay.DOMRect :=
  match ev with
  | PointerMove rect _ => rect
  | WindowMouseMove rect _ => rect
  | _ => None
  end.

(** A container that is laid out: its width is positive. *)
Definition laid_out (ev : Event) : Prop :=
  match rect_of ev with
  | Some r => 0 < BrushOverlay.rect_width r
  | None => True
  end.

(** The right inset of the clip path of the "before" image (line 79). *)
Definition clip_right (st : State) : Q := 100 - sliderPosition st.

End ComparisonSlider.

(** ** App.tsx: the editor *)

Module Editor.

(** The edit, masking, export and AI state cells of [App] (lines 147-169),
    with the image cells the handlers below read. *)
Record State : Type := mkState {
  scale : Q;
  maintainAspect : bool;
  cropEnabled : bool;
  cropData : option CropArea;
  isCompareMode : bool;
  isMasking : bool;
  maskStrokes : list Stroke;
  exportFormat : ExportFormat;
  exportQuality : Q;
  aiPrompt : string;
  isExpanding : bool;
  originalImage : option ImageState;
  previewUrl : option string
}.

Definition initial : State :=
  mkState 1 true false None false false [] png (9 # 10) "" false None None.

(** [containerDim] (line 174). *)
Record ContainerDim : Type := mkDim { dim_w : Q; dim_h : Q }.

(** The [onCropChange] callback given to the crop overlay (lines 745-756):
    the region in native image pixels. *)
Definition onCropChange (originalImage : ImageState)
  (containerDim : ContainerDim) (c : CropArea) : CropArea :=
  let scaleX := image_width originalImage / dim_w containerDim in
  let scaleY := image_height originalImage / dim_h containerDim in
  mkCropArea (crop_x c * scaleX) (crop_y c * scaleY)
             (crop_width c * scaleX) (crop_height c * scaleY) px.

(** The props the crop overlay is rendered with (lines 741-744): the
    container's dimensions and the chosen ratio. *)
Definition cropOverlayProps (containerDim : ContainerDim) (aspectRatio : Q)
  : CropOverlay.Props :=
  CropOverlay.mkProps (dim_w containerDim) (dim_h containerDim) aspectRatio.

(** The options [handleDownload] passes to [processImage] (lines 344-350). *)
Definition downloadOptions (st : State) : ProcessingOptions :=
  mkOptions (scale st) (maintainAspect st)
            (if cropEnabled st then cropData st else None)
            (exportFormat st) (exportQuality st).

(** The options of [updatePreview] and of [handleAiEdit] (lines 215-221,
    270-272, 291-293). *)
Definition previewOptions (st : State) : ProcessingOptions :=
  mkOptions (scale st) (maintainAspect st)
            (if cropEnabled st then cropData st else None) png 1.

(** [handleApplyCrop] (lines 244-249), as far as it sets state. *)
Definition handleApplyCrop (st : State) : State :=
  match cropData st, originalImage st with
  | Some _, Some _ =>
      mkState (scale st) (maintainAspect st) false (cropData st)
        (isCompareMode st) (isMasking st) (maskStrokes st) (exportFormat st)
        (exportQuality st) (aiPrompt st) (isExpanding st) (originalImage st)
        (previewUrl st)
  | _, _ => st
  end.

(** What the user and the environment can do to the editor. *)
Inductive Action : Type :=
| ClickCompare                      (* lines 457-460 *)
| ClickCrop                         (* lines 580-584 *)
| ClickGlobal                       (* line 616 *)
| ClickExpand                       (* line 622 *)
| ClickInpaint                      (* line 628 *)
| ClickRatio                        (* lines 640-642, handleExpandRatio *)
| ClickClearMask                    (* line 660 *)
| CropChanged (c : CropArea)        (* lines 745-756 *)
| StrokesChanged (s : list Stroke)  (* line 766 *)
| PreviewReady (url : string)       (* lines 224, 372 *)
| ImageUploaded (im : ImageState)   (* lines 195-207 *)
| AiImageLoaded (newUrl : string) (w h : Q).   (* lines 308-329 *)

(** What the render requires of the state for the control behind an
    action to be there (the overlays need a measured container besides, and
    that the comparison slider is not shown in their place). *)
Definition rendered (st : State) (a : Action) : bool :=
  match a with
  | ClickCrop => negb (isExpanding st) && negb (isMasking st)  (* line 528 *)
  | ClickRatio => isExpanding st                                (* line 636 *)
  | ClickClearMask => isMasking st                              (* line 648 *)
  | CropChanged _ =>                                            (* line 740 *)
      cropEnabled st &&
      match originalImage st with Some _ => true | None => false end
  | StrokesChanged _ => isMasking st                            (* line 761 *)
  | _ => true
  end.

Definition handle (st : State) (a : Action) : State :=
  match a with
  | ClickCompare =>
      let cropEnabled' :=
        if cropEnabled st && negb (isCompareMode st) then false
        else cropEnabled st in
      mkState (scale st) (maintainAspect st) cropEnabled' (cropData st)
        (negb (isCompareMode st)) (isMasking st) (maskStrokes st)
        (exportFormat st) (exportQuality st) (aiPrompt st) (isExpanding st)
        (originalImage st) (previewUrl st)
  | ClickCrop =>
      let isCompareMode' :=
        if isCompareMode st then false else isCompareMode st in
      let st' :=
        if cropEnabled st then handleApplyCrop st
        else
          mkState (scale st) (maintainAspect st) true (cropData st)
            (isCompareMode st) (isMasking st) (maskStrokes st)
            (exportFormat st) (exportQuality st) (aiPrompt st)
            (isExpanding st) (originalImage st) (previewUrl st) in
      mkState (scale st') (maintainAspect st') (cropEnabled st')
        (cropData st') isCompareMode' (isMasking st') (maskStrokes st')
        (exportFormat st') (exportQuality st') (aiPrompt st')
        (isExpanding st') (originalImage st') (previewUrl st')
  | ClickGlobal =>
      mkState (scale st) (maintainAspect st) (cropEnabled st) (cropData st)
        (isCompareMode st) false (maskStrokes st) (exportFormat st)
        (exportQuality st) (aiPrompt st) false (originalImage st)
        (previewUrl st)
  | ClickExpand =>
      mkState (scale st) (maintainAspect st) false (cropData st)
        (isCompareMode st) false (maskStrokes st) (exportFormat st)
        (exportQuality st) (aiPrompt st) true (originalImage st)
        (previewUrl st)
  | ClickInpaint =>
      mkState (scale st) (maintainAspect st) false (cropData st)
        (isCompareMode st) true (maskStrokes st) (exportFormat st)
        (exportQuality st) (aiPrompt st) false (originalImage st)
        (previewUrl st)
  | ClickRatio =>
      match originalImage st with
      | Some im =>
          match originalUrl im with
          | Some u =>
              if String.eqb u "" then st
              else
                mkState (scale st) (maintainAspect st) false (cropData st)
                  (isCompareMode st) false (maskStrokes st) (exportFormat st)
                  (exportQuality st) (aiPrompt st) (isExpanding st)
                  (originalImage st) (previewUrl st)
          | None => st
          end
      | None => st
      end
  | ClickClearMask =>
      mkState (scale st) (maintainAspect st) (cropEnabled st) (cropData st)
        (isCompareMode st) (isMasking st) [] (exportFormat st)
        (exportQuality st) (aiPrompt st) (isExpanding st) (originalImage st)
        (previewUrl st)
  | CropChanged c =>
      mkState (scale st) (maintainAspect st) (cropEnabled st) (Some c)
        (isCompareMode st) (isMasking st) (maskStrokes st) (exportFormat st)
        (exportQuality st) (aiPrompt st) (isExpanding st) (originalImage st)
        (previewUrl st)
  | StrokesChanged s =>
      mkState (scale st) (maintainAspect st) (cropEnabled st) (cropData st)
        (isCompareMode st) (isMasking st) s (exportFormat st)
        (exportQuality st) (aiPrompt st) (isExpanding st) (originalImage st)
        (previewUrl st)
  | PreviewReady url =>
      mkState (scale st) (maintainAspect st) (cropEnabled st) (cropData st)
        (isCompareMode st) (isMasking st) (maskStrokes st) (exportFormat st)
        (exportQuality st) (aiPrompt st) (isExpanding st) (originalImage st)
        (Some url)
  | ImageUploaded im =>
      mkState (scale st) (maintainAspect st) (cropEnabled st) (cropData st)
        (isCompareMode st) (isMasking st) (maskStrokes st) (exportFormat st)
        (exportQuality st) (aiPrompt st) (isExpanding st) (Some im)
        (originalUrl im)
  | AiImageLoaded newUrl w h =>
      mkState 1 (maintainAspect st) false None
        (isCompareMode st) false [] (exportFormat st)
        (exportQuality st) "" false
        match originalImage st with
        | Some im =>
            Some (mkImageState (Some newUrl) (currentUrl im) (filename im)
                               w h (fileSize im) (image_type im))
        | None => None
        end
        (Some newUrl)
  end.

(** An action reaches its handler only if its control is rendered. *)
Definition step (st : State) (a : Action) : State :=
  if rendered st a then handle st a else st.

Definition run (st : State) (acts : list Action) : State :=
  fold_left step acts st.

(** At most one of the crop, mask and expand modes is on, and the crop
    overlay is never on together with the comparison slider. *)
Definition exclusive (st : State) : Prop :=
  (cropEnabled st = true -> isMasking st = false /\ isExpanding st = false) /\
  (isMasking st = true -> isExpanding st = false) /\
  (cropEnabled st = true -> isCompareMode st = false).

(** Step 2 of [handleAiEdit] (lines 297-304): the prompt sent. *)
Definition finalPrompt (st : State) : string :=
  (let finalPrompt :=
     if String.eqb (aiPrompt st) "" then "Enhance this image, high quality"
     else aiPrompt st in
   let finalPrompt :=
     if isMasking st then
       "Change the area highlighted in red to: " ++ aiPrompt st
         ++ ". Keep the rest of the image unchanged."
     else finalPrompt in
   let finalPrompt :=
     if isExpanding st then
       "Fill in the empty white background areas to seamlessly match the scene. "
         ++ aiPrompt st
     else finalPrompt in
   finalPrompt)%string.

(** Step 1 of [handleAiEdit] (lines 267-295): where the image sent comes
    from. *)
Inductive Source : Type :=
| Composited (options : ProcessingOptions) (strokes : list Stroke)
             (w h : Q)
| Fetched (url : string)
| Processed (options : ProcessingOptions)
| Thrown (msg : string).

Definition prepareSource (st : State) (containerDim : ContainerDim)
  : Source :=
  if isMasking st && (0 <? List.length (maskStrokes st))%nat then
    Composited (previewOptions st) (maskStrokes st)
               (dim_w containerDim) (dim_h containerDim)
  else if isExpanding st then
    match previewUrl st with
    | Some u => if String.eqb u "" then Thrown "No image to expand"
                else Fetched u
    | None => Thrown "No image to expand"
    end
  else Processed (previewOptions st).

(** The message the [catch] of [handleAiEdit] sets (line 333) for an error
    with message [m]. *)
Definition aiFailed (m : string) : string :=
  ("AI Failed: " ++ (if String.eqb m "" then "Unknown error" else m))%string.

(** Whether the editor displays an error message (line 693). *)
Definition editorShows (errorMessage : option string) : bool :=
  match errorMessage with
  | Some m => negb (String.eqb m "") && includes m "AI"
  | None => false
  end.

(** The other messages the editor's handlers set (lines 227, 257, 358,
    374). *)
Definition msg_preview : string := "Failed to update preview.".
Definition msg_missing_key : string :=
  "Missing API Key. Please add VITE_API_KEY in Vercel Settings and redeploy.".
Definition msg_download : string := "Download failed.".
Definition msg_expansion : string := "Expansion preview failed".

End Editor.

(** ** App.tsx and BrushOverlay.tsx: the mask in both places *)

Module MaskSession.

(** The overlay's own state and the [maskStrokes] cell of [App], which the
    overlay's repaint effect writes through [onStrokesChange]. *)
Record State : Type := mkState {
  overlay : BrushOverlay.State;
  maskStrokes : list Stroke
}.

Inductive Action : Type :=
| Pointer (ev : BrushOverlay.Event)
| ClearMask.

(** [ctx] tells whether the overlay's canvas has its 2D context. *)
Definition step (ctx : bool) (st : State) (a : Action) : State :=
  match a with
  | Pointer ev =>
      let overlay' := BrushOverlay.step (overlay st) ev in
      if BrushOverlay.sets_state (overlay st) ev then
        match BrushOverlay.repaint (BrushOverlay.props_of ev) ctx overlay' with
        | Some (_, reported) => mkState overlay' reported
        | None => mkState overlay' (maskStrokes st)
        end
      else mkState overlay' (maskStrokes st)
  | ClearMask => mkState (overlay st) []   (* App.tsx line 660 *)
  end.

Definition run (ctx : bool) (st : State) (acts : list Action) : State :=
  fold_left (step ctx) acts st.

Definition mount : State := mkState BrushOverlay.mount [].

End MaskSession.

(** * Properties *)

(** ** Facts about the arithmetic helpers *)

Lemma Qltb_cases (a b : Q) :
  (Qltb a b = true /\ a < b) \/ (Qltb a b = false /\ b <= a).
Proof.
  unfold Qltb. destruct (Qle_bool b a) eqn:E.
  - right. split; [reflexivity|]. now apply Qle_bool_iff.
  - left. split; [reflexivity|]. apply Qnot_le_lt. intro L.
    apply Qle_bool_iff in L. congruence.
Qed.

Lemma nonzero_cases (a : Q) :
  (nonzero a = true /\ ~ a == 0) \/ (nonzero a = false /\ a == 0).
Proof.
  unfold nonzero. destruct (Qeq_bool a 0) eqn:E.
  - right. split; [reflexivity|]. now apply Qeq_bool_iff.
  - left. split; [reflexivity|]. intro X. apply Qeq_bool_iff in X. congruence.
Qed.

Lemma Math_max_cases (a b : Q) :
  (a < b /\ Math_max a b = b) \/ (b <= a /\ Math_max a b = a).
Proof.
  unfold Math_max. destruct (Qltb_cases a b) as [[-> L]|[-> L]]; auto.
Qed.

Lemma Math_min_cases (a b : Q) :
  (b < a /\ Math_min a b = b) \/ (a <= b /\ Math_min a b = a).
Proof.
  unfold Math_min. destruct (Qltb_cases b a) as [[-> L]|[-> L]]; auto.
Qed.

(** [Math.max(lo, Math.min(hi, v))] clamps [v] into [[lo, hi]] when the
    interval is not empty, and is [lo] when it is. *)
Lemma clamp_bounds (lo hi v : Q) :
  lo <= Math_max lo (Math_min hi v) /\
  (lo <= hi -> Math_max lo (Math_min hi v) <= hi).
Proof.
  destruct (Math_min_cases hi v) as [[? ->]|[? ->]];
    destruct (Math_max_cases lo v) as [[? E1]|[? E1]];
    destruct (Math_max_cases lo hi) as [[? E2]|[? E2]];
    try rewrite E1; try rewrite E2; split; intros; lra.
Qed.

(** Dividing and multiplying by the locked ratio. *)
Lemma div_then_ratio (w r : Q) :
  ~ r == 0 -> ~ w == 0 -> ~ w / r == 0 /\ w / (w / r) == r.
Proof.
  intros Hr Hw. split.
  - intro E. apply Hw. setoid_replace w with (w / r * r) by (field; exact Hr).
    rewrite E. ring.
  - field. split; assumption.
Qed.

(** Equality on [Q] is closeness below every positive tolerance. *)
Lemma Qeq_within_tolerance (a b : Q) :
  a == b <-> forall eps, 0 < eps -> Qabs (a - b) < eps.
Proof.
  split.
  - intros E eps Heps. setoid_replace (a - b) with 0 by lra. exact Heps.
  - intros T. destruct (Qeq_dec a b) as [E|N]; [exact E|exfalso].
    assert (P : 0 < Qabs (a - b)).
    { destruct (Qlt_le_dec 0 (Qabs (a - b))) as [L|L]; [exact L|].
      pose proof (Qabs_nonneg (a - b)) as NN.
      assert (Z : Qabs (a - b) == 0) by lra.
      exfalso. apply N. revert Z. apply Qabs_case; intros; lra. }
    specialize (T (Qabs (a - b)) P). lra.
Qed.

(** Below 2^31 a canvas dimension is the integer part of the number
    assigned. *)
Lemma canvas_dimension_floor (d : Z) (v : Q) :
  0 <= v -> v < 2147483648 -> canvas_dimension d v = Qfloor v.
Proof.
  intros Hv Hb.
  assert (F0 : (0 <= Qfloor v)%Z).
  { change 0%Z with (Qfloor 0). apply Qfloor_resp_le. exact Hv. }
  assert (F1 : (Qfloor v < 2147483648)%Z).
  { rewrite Zlt_Qlt. apply Qle_lt_trans with v; [apply Qfloor_le|exact Hb]. }
  assert (E : Z.quot (Qnum v) (Zpos (Qden v)) = Qfloor v).
  { destruct v as [n d']. cbn [Qnum Qden Qfloor].
    apply Z.quot_div_nonneg; [|reflexivity].
    unfold Qle in Hv. cbn in Hv. lia. }
  unfold canvas_dimension, ToUint32. rewrite E.
  rewrite Z.mod_small by lia.
  destruct (Z.leb_spec (Qfloor v) 2147483647) as [_|L]; [reflexivity|lia].
Qed.

Lemma canvas_dimension_integer_part (d : Z) (v : Q) :
  0 <= v -> v < 2147483648 ->
  inject_Z (canvas_dimension d v) <= v /\
  v < inject_Z (canvas_dimension d v) + 1.
Proof.
  intros Hv Hb. rewrite (canvas_dimension_floor d v Hv Hb). split.
  - apply Qfloor_le.
  - pose proof (Qlt_floor v) as L. rewrite inject_Z_plus in L. exact L.
Qed.



(** Case analysis on the tests the handlers make. *)
Ltac split_min :=
  match goal with
  | |- context [Math_min ?a ?b] =>
      let E := fresh "E" in
      destruct (Math_min_cases a b) as [[? E]|[? E]]; rewrite E in *; clear E
  end.
Ltac split_max :=
  match goal with
  | |- context [Math_max ?a ?b] =>
      let E := fresh "E" in
      destruct (Math_max_cases a b) as [[? E]|[? E]]; rewrite E in *; clear E
  end.
Ltac split_lt :=
  match goal with
  | |- context [Qltb ?a ?b] =>
      let E := fresh "E" in
      destruct (Qltb_cases a b) as [[E ?]|[E ?]]; rewrite E in *; clear E
  end.

Lemma div_mul_ratio (v r : Q) :
  ~ r == 0 -> ~ v == 0 -> ~ v / r == 0 /\ v / r * r / (v / r) == r.
Proof.
  intros Hr Hv. destruct (div_then_ratio v r Hr Hv) as [N _].
  split; [exact N|]. field. split; assumption.
Qed.

Lemma div_mul_cancel (v r : Q) : ~ r == 0 -> v / r * r == v.
Proof. intros. field. assumption. Qed.

Lemma lt_div_mul (r w h : Q) : 0 < h -> r < w / h -> r * h < w.
Proof.
  intros Hh L. setoid_replace w with (w / h * h) by (field; lra). nra.
Qed.

Lemma le_div_mul (r w h : Q) : 0 < h -> w / h <= r -> w <= r * h.
Proof.
  intros Hh L. setoid_replace w with (w / h * h) at 1 by (field; lra). nra.
Qed.

Lemma mul_le_cancel (a b r : Q) : 0 < r -> a * r <= b * r -> a <= b.
Proof. intros Hr L. nra. Qed.

Lemma mul_lt_cancel (a b r : Q) : 0 < r -> a * r < b * r -> a < b.
Proof. intros Hr L. nra. Qed.

Lemma ratio_of_mul (w h r : Q) : 0 < h -> w == h * r -> w / h == r.
Proof. intros Hh E. rewrite E. field. lra. Qed.

(** Name every quotient by the ratio, keeping the equation that defines it. *)
Ltac name_quotients Hr :=
  match type of Hr with
  | ~ ?r == 0 =>
      repeat match goal with
        | |- context [?v / r] =>
            let q := fresh "q" in
            let Eq := fresh "Eq" in
            pose proof (div_mul_cancel v r Hr) as Eq;
            set (q := v / r) in *; clearbody q
        | H : context [?v / r] |- _ =>
            let q := fresh "q" in
            let Eq := fresh "Eq" in
            pose proof (div_mul_cancel v r Hr) as Eq;
            set (q := v / r) in *; clearbody q
        end
  end.

(** ** The crop overlay *)

Section CropOverlayFacts.
Import CropOverlay.

(** With a locked ratio the initial region has that ratio. *)
Lemma initCrop_ratio (p : Props) :
  ~ aspectRatio p == 0 ->
  crop_width (initCrop p) == crop_height (initCrop p) * aspectRatio p.
Proof.
  intros Hr. unfold initCrop.
  destruct (nonzero_cases (aspectRatio p)) as [[-> _]|[_ Z]]; [|contradiction].
  split_lt; simpl; [reflexivity|field; assumption].
Qed.

(** C6.  For a container of positive width and height, initialisation
    stores and emits a centred rectangle at 80% scale: with ratio 0 both
    dimensions are 80% of the container; with a locked ratio the rectangle is
    height-bound when width/height exceeds the ratio (height = 0.8*height,
    width = that height * ratio) and width-bound otherwise (width =
    0.8*width, height = that width / ratio); its origin is
    ((width - initW)/2, (height - initH)/2), in pixels. *)
Theorem initCrop_centered_at_80_percent (p : Props) (st : State) :
  0 < width p -> 0 < height p ->
  let c := initCrop p in
  initEffect p st =
    (mkState c (isDragging st) (dragHandle st) (startPos st), c) /\
  (aspectRatio p == 0 ->
     crop_width c == width p * (8 # 10) /\
     crop_height c == height p * (8 # 10)) /\
  (~ aspectRatio p == 0 -> aspectRatio p < width p / height p ->
     crop_height c == height p * (8 # 10) /\
     crop_width c == crop_height c * aspectRatio p) /\
  (~ aspectRatio p == 0 -> ~ aspectRatio p < width p / height p ->
     crop_width c == width p * (8 # 10) /\
     crop_height c == crop_width c / aspectRatio p) /\
  crop_x c == (width p - crop_width c) / 2 /\
  crop_y c == (height p - crop_height c) / 2 /\
  crop_x c + crop_width c + crop_x c == width p /\
  crop_y c + crop_height c + crop_y c == height p /\
  crop_unit c = px.
Proof.
  intros HW HH c. subst c. split; [reflexivity|].
  unfold initCrop.
  destruct (nonzero_cases (aspectRatio p)) as [[-> Hr]|[-> Hr]].
  - split_lt; simpl; repeat split; intros; try reflexivity;
      try contradiction; try (exfalso; lra); try (field; lra).
  - simpl; repeat split; intros; try reflexivity; try contradiction;
      try (field; lra).
Qed.

Lemma initCrop_centered_at_80_percent_witness :
  let p := mkProps 400 300 (16 # 9) in
  (0 < width p /\ 0 < height p) /\
  crop_width (initCrop p) == 320 /\ crop_height (initCrop p) == 180 /\
  crop_x (initCrop p) == 40 /\ crop_y (initCrop p) == 60.
Proof.
  intros p.
  assert (HW : 0 < width p) by reflexivity.
  assert (HH : 0 < height p) by reflexivity.
  split; [split; assumption|].
  destruct (initCrop_centered_at_80_percent p (mount p) HW HH)
    as (_ & _ & _ & Hnarrow & Hx & Hy & _).
  destruct Hnarrow as [Hw Hh]; [discriminate | discriminate |].
  assert (Ew : crop_width (initCrop p) == 320) by (rewrite Hw; reflexivity).
  assert (Eh : crop_height (initCrop p) == 180)
    by (rewrite Hh, Ew; reflexivity).
  assert (Ex : crop_x (initCrop p) == 40) by (rewrite Hx, Ew; reflexivity).
  assert (Ey : crop_y (initCrop p) == 60) by (rewrite Hy, Eh; reflexivity).
  exact (conj Ew (conj Eh (conj Ex Ey))).
Defined.

(** The handler on a drag in progress stores the region it emits; without
    a drag it does nothing. *)
Lemma handlePointerMove_emits (p : Props) (st : State) (e : PointerEvent) :
  isDragging st = true ->
  snd (handlePointerMove p st e) =
    Some (st_crop (fst (handlePointerMove p st e))).
Proof. intros D. unfold handlePointerMove. rewrite D. reflexivity. Qed.

Lemma handlePointerMove_idle (p : Props) (st : State) (e : PointerEvent) :
  isDragging st = false -> handlePointerMove p st e = (st, None).
Proof. intros D. unfold handlePointerMove. rewrite D. reflexivity. Qed.

(** A resize under a locked ratio leaves a region of exactly that ratio,
    whichever of the two re-clamps fired.  A handle that drives neither
    edge (none is rendered) keeps the ratio the region already had. *)
Lemma locked_resize_ratio (p : Props) (st : State) (e : PointerEvent) :
  ~ aspectRatio p == 0 ->
  isDragging st = true ->
  is_handle (dragHandle st) "move" = false ->
  includes_opt (dragHandle st) "e" = true \/
  includes_opt (dragHandle st) "s" = true \/
  (~ crop_height (st_crop st) == 0 /\
   crop_width (st_crop st) / crop_height (st_crop st) == aspectRatio p) ->
  crop_x (st_crop st) < width p ->
  crop_y (st_crop st) < height p ->
  let next := st_crop (fst (handlePointerMove p st e)) in
  ~ crop_height next == 0 /\
  crop_width next / crop_height next == aspectRatio p.
Proof.
  intros Hr D M Hdrv Hx Hy. unfold handlePointerMove. rewrite D, M.
  destruct (nonzero_cases (aspectRatio p)) as [[-> _]|[_ Z]]; [|contradiction].
  cbn [negb].
  destruct (includes_opt (dragHandle st) "e") eqn:Ee;
    destruct (includes_opt (dragHandle st) "s") eqn:Es;
    cbn -[Qdiv Qmult Qplus Qminus].
  all: repeat split_min; repeat split_max.
  all: repeat split_lt.
  all: cbn -[Qdiv Qmult Qplus Qminus Qeq].
  all: try (destruct Hdrv as [X|[X|[Hh Hratio]]];
            [discriminate X|discriminate X|]).
  all: solve [ apply div_then_ratio; [assumption | lra]
             | split; [lra | field; lra]
             | apply div_mul_ratio; [assumption | lra]
             | split; assumption ].
Qed.

(** C1.  During a drag with a resize handle that drives the east or the
    south edge, on a region whose origin is strictly inside the container
    (as it is for every region of positive size within it), a locked ratio
    r <> 0 is met by the region the pointer-move handler stores and emits:
    width/height equals r, hence |width/height - r| is below every positive
    tolerance, also when the boundary re-clamps fired. *)
Theorem locked_resize_keeps_ratio (p : Props) (st : State) (e : PointerEvent) :
  ~ aspectRatio p == 0 ->
  isDragging st = true ->
  is_handle (dragHandle st) "move" = false ->
  includes_opt (dragHandle st) "e" = true \/
  includes_opt (dragHandle st) "s" = true ->
  crop_x (st_crop st) < width p ->
  crop_y (st_crop st) < height p ->
  let next := st_crop (fst (handlePointerMove p st e)) in
  snd (handlePointerMove p st e) = Some next /\
  ~ crop_height next == 0 /\
  crop_width next / crop_height next == aspectRatio p /\
  forall eps, 0 < eps ->
    Qabs (crop_width next / crop_height next - aspectRatio p) < eps.
Proof.
  intros Hr D M Hdrv Hx Hy next.
  assert (Hdrv' : includes_opt (dragHandle st) "e" = true \/
                  includes_opt (dragHandle st) "s" = true \/
                  (~ crop_height (st_crop st) == 0 /\
                   crop_width (st_crop st) / crop_height (st_crop st)
                     == aspectRatio p)) by tauto.
  destruct (locked_resize_ratio p st e Hr D M Hdrv' Hx Hy) as [Hh Hq].
  split; [apply handlePointerMove_emits; assumption|].
  split; [exact Hh|]. split; [exact Hq|].
  apply Qeq_within_tolerance. exact Hq.
Qed.

Lemma locked_resize_keeps_ratio_witness :
  let p := mkProps 400 300 (16 # 9) in
  let st := handlePointerDown (initialized p) (mkPointerEvent 0 0) "se" in
  let next :=
    st_crop (fst (handlePointerMove p st (mkPointerEvent 1000 1000))) in
  crop_width next / crop_height next == 16 # 9.
Proof.
  intros p st next.
  apply (locked_resize_keeps_ratio p st (mkPointerEvent 1000 1000)).
  - discriminate.
  - reflexivity.
  - reflexivity.
  - left. reflexivity.
  - vm_compute. reflexivity.
  - vm_compute. reflexivity.
Defined.

(** A drag update keeps a region inside the container when it is a move,
    when the ratio is locked to a positive value, or when the free resize
    has 50 units of room to the right of and below the region's origin. *)
Lemma drag_inside (p : Props) (st : State) (e : PointerEvent) :
  inside p (st_crop st) ->
  is_handle (dragHandle st) "move" = true \/
  0 < aspectRatio p \/
  (aspectRatio p == 0 /\
   50 <= width p - crop_x (st_crop st) /\
   50 <= height p - crop_y (st_crop st)) ->
  inside p (st_crop (fst (handlePointerMove p st e))).
Proof.
  intros (Hx & Hy & Hw & Hh) Hcase. unfold handlePointerMove.
  destruct (isDragging st); cbn [negb fst]; [|repeat split; assumption].
  destruct (is_handle (dragHandle st) "move") eqn:M.
  - unfold inside; cbn.
    repeat split_min; repeat split_max; repeat split; lra.
  - destruct Hcase as [X|Hcase]; [discriminate X|].
    destruct (nonzero_cases (aspectRatio p)) as [[-> Hr]|[-> Hr]].
    + destruct Hcase as [Hpos|[Z _]]; [|contradiction].
      destruct (includes_opt (dragHandle st) "e") eqn:Ee;
        destruct (includes_opt (dragHandle st) "s") eqn:Es;
        cbn -[Qdiv Qmult Qplus Qminus].
      all: repeat split_min; repeat split_max.
      all: repeat split_lt.
      all: unfold inside; cbn -[Qdiv Qmult Qplus Qminus Qeq Qle Qlt] in *.
      all: name_quotients Hr.
      all: solve [repeat split; try lra; nra].
    + destruct Hcase as [Hpos|(_ & Rx & Ry)]; [exfalso; lra|].
      destruct (includes_opt (dragHandle st) "e") eqn:Ee;
        destruct (includes_opt (dragHandle st) "s") eqn:Es;
        unfold inside; cbn -[Qdiv Qmult Qplus Qminus].
      all: repeat split_min; repeat split_max; repeat split; lra.
Qed.

(** C2, as the code has it.  A region inside the container stays inside
    it (x >= 0, y >= 0, x + width <= W, y + height <= H) after a drag update
    that is a move, or a resize under a ratio locked to a positive value, or
    a free resize of a region whose origin is at least 50 away from the
    right and bottom edges of the container (so in particular of every
    region of width and height at least 50). *)
Theorem drag_stays_inside (p : Props) (st : State) (e : PointerEvent) :
  inside p (st_crop st) ->
  is_handle (dragHandle st) "move" = true \/
  0 < aspectRatio p \/
  (aspectRatio p == 0 /\
   50 <= width p - crop_x (st_crop st) /\
   50 <= height p - crop_y (st_crop st)) ->
  let next := st_crop (fst (handlePointerMove p st e)) in
  0 <= crop_x next /\ 0 <= crop_y next /\
  crop_x next + crop_width next <= width p /\
  crop_y next + crop_height next <= height p.
Proof. intros Hin Hcase next. exact (drag_inside p st e Hin Hcase). Qed.

Lemma drag_stays_inside_witness :
  let p := mkProps 400 300 0 in
  let st := handlePointerDown (initialized p) (mkPointerEvent 0 0) "se" in
  let next :=
    st_crop (fst (handlePointerMove p st (mkPointerEvent 1000 (-1000)))) in
  0 <= crop_x next /\ 0 <= crop_y next /\
  crop_x next + crop_width next <= 400 /\
  crop_y next + crop_height next <= 300.
Proof.
  intros p st next.
  apply (drag_stays_inside p st (mkPointerEvent 1000 (-1000))).
  - repeat split; vm_compute; discriminate.
  - right. right. repeat split; vm_compute; discriminate.
Defined.

(** C2 as stated fails: in a 50 x 50 container the initial region
    (5, 5, 40, 40) is inside, and a resize drag that has not moved the
    pointer yet makes it 50 wide, past the right edge. *)
Lemma free_resize_leaves_small_container :
  let p := mkProps 50 50 0 in
  let st := handlePointerDown (initialized p) (mkPointerEvent 0 0) "se" in
  let next :=
    st_crop (fst (handlePointerMove p st (mkPointerEvent 0 0))) in
  inside p (st_crop st) /\
  crop_x next + crop_width next == 55 /\
  ~ inside p next.
Proof.
  intros p st next. split; [|split].
  - repeat split; vm_compute; discriminate.
  - vm_compute. reflexivity.
  - intros (_ & _ & Hw & _). vm_compute in Hw. apply Hw. reflexivity.
Qed.

(** A move changes the origin only. *)
Lemma move_keeps_size (p : Props) (st : State) (e : PointerEvent) :
  is_handle (dragHandle st) "move" = true ->
  let next := st_crop (fst (handlePointerMove p st e)) in
  crop_width next = crop_width (st_crop st) /\
  crop_height next = crop_height (st_crop st).
Proof.
  intros M. unfold handlePointerMove.
  destruct (isDragging st); cbn [negb fst]; [|split; reflexivity].
  rewrite M. split; reflexivity.
Qed.

(** With the ratio unlocked a drag update never takes a dimension below
    the minimum: a move keeps both, a resize sets the ones it drives to at
    least 50. *)
Lemma free_drag_min_size (p : Props) (st : State) (e : PointerEvent) :
  aspectRatio p == 0 ->
  min_size (st_crop st) ->
  min_size (st_crop (fst (handlePointerMove p st e))).
Proof.
  intros Hr [Hw Hh]. unfold handlePointerMove.
  destruct (isDragging st); cbn [negb fst]; [|split; assumption].
  destruct (is_handle (dragHandle st) "move"); [split; assumption|].
  destruct (nonzero_cases (aspectRatio p)) as [[_ N]|[-> _]]; [contradiction|].
  destruct (includes_opt (dragHandle st) "e");
    destruct (includes_opt (dragHandle st) "s");
    unfold min_size; cbn -[Qdiv Qmult Qplus Qminus].
  all: split; try assumption; apply clamp_bounds.
Qed.

Lemma free_step_min_size (p : Props) (st : State) (ev : Event) :
  aspectRatio p == 0 ->
  min_size (st_crop st) ->
  min_size (st_crop (step p st ev)).
Proof.
  intros Hr Hm. destruct ev as [e handle|e|]; cbn [step].
  - exact Hm.
  - apply free_drag_min_size; assumption.
  - exact Hm.
Qed.

(** C3, as the code has it.  With the ratio unlocked and a container at
    least 62.5 wide and high, the region has width >= 50 and height >= 50
    once initialised and after every sequence of pointer events (so after
    every drag update).  Nothing of the kind holds for the initial region of
    a smaller container, nor for the dimension derived from a locked ratio. *)
Theorem free_ratio_min_size (p : Props) (evs : list Event) :
  aspectRatio p == 0 ->
  125 # 2 <= width p ->
  125 # 2 <= height p ->
  let c := st_crop (run p (initialized p) evs) in
  50 <= crop_width c /\ 50 <= crop_height c.
Proof.
  intros Hr HW HH.
  assert (Hinit : min_size (st_crop (initialized p))).
  { unfold initialized, initEffect, initCrop, min_size. cbn [fst st_crop].
    destruct (nonzero_cases (aspectRatio p)) as [[_ N]|[-> _]];
      [contradiction|].
    cbn -[Qmult]. split; lra. }
  unfold run. generalize dependent (initialized p).
  induction evs as [|ev evs IH]; intros st Hst; cbn [fold_left].
  - exact Hst.
  - apply IH. apply free_step_min_size; assumption.
Qed.

Lemma free_ratio_min_size_witness :
  let p := mkProps 400 300 0 in
  let evs := [PointerDown (mkPointerEvent 10 10) "se";
              PointerMove (mkPointerEvent (-1000) (-1000));
              PointerUp] in
  let c := st_crop (run p (initialized p) evs) in
  50 <= crop_width c /\ 50 <= crop_height c.
Proof.
  intros p evs c. apply (free_ratio_min_size p evs).
  - reflexivity.
  - vm_compute. discriminate.
  - vm_compute. discriminate.
Defined.

(** C3 as stated fails twice: the initial region of a 50 x 50 container is
    40 x 40, and under the locked ratio 16:9 shrinking the region of a
    400 x 300 container leaves the width at 50 and derives the height
    28.125 from it. *)
Lemma min_size_not_enforced :
  (let p := mkProps 50 50 0 in
   crop_width (initCrop p) == 40 /\ ~ min_size (initCrop p)) /\
  (let p := mkProps 400 300 (16 # 9) in
   let st := handlePointerDown (initialized p) (mkPointerEvent 0 0) "se" in
   let next :=
     st_crop (fst (handlePointerMove p st (mkPointerEvent (-1000) (-1000)))) in
   crop_width next == 50 /\ crop_height next == 225 # 8 /\ ~ min_size next).
Proof.
  split.
  - intros p. split; [vm_compute; reflexivity|].
    intros [Hw _]. vm_compute in Hw. apply Hw. reflexivity.
  - intros p st next. split; [vm_compute; reflexivity|].
    split; [vm_compute; reflexivity|].
    intros [_ Hh]. vm_compute in Hh. apply Hh. reflexivity.
Qed.

(** Under a ratio locked to a positive value a resize keeps the region's
    size positive. *)
Lemma locked_resize_positive (p : Props) (st : State) (e : PointerEvent) :
  0 < aspectRatio p ->
  isDragging st = true ->
  is_handle (dragHandle st) "move" = false ->
  crop_x (st_crop st) < width p ->
  crop_y (st_crop st) < height p ->
  0 < crop_width (st_crop st) ->
  0 < crop_height (st_crop st) ->
  let next := st_crop (fst (handlePointerMove p st e)) in
  0 < crop_width next /\ 0 < crop_height next.
Proof.
  intros Hpos D M Hx Hy Hw Hh. unfold handlePointerMove. rewrite D, M.
  destruct (nonzero_cases (aspectRatio p)) as [[-> Hr]|[_ Z]];
    [|exfalso; lra].
  cbn [negb].
  destruct (includes_opt (dragHandle st) "e") eqn:Ee;
    destruct (includes_opt (dragHandle st) "s") eqn:Es;
    cbn -[Qdiv Qmult Qplus Qminus].
  all: repeat split_min; repeat split_max.
  all: repeat split_lt.
  all: cbn -[Qdiv Qmult Qplus Qminus Qeq Qle Qlt] in *.
  all: name_quotients Hr.
  all: solve [split; try lra; nra].
Qed.

Lemma locked_step_inv (p : Props) (st : State) (ev : Event) :
  0 < aspectRatio p ->
  locked_inv p (st_crop st) ->
  locked_inv p (st_crop (step p st ev)).
Proof.
  intros Hpos Hinv. destruct ev as [e handle|e|]; cbn [step];
    try exact Hinv.
  destruct Hinv as (Hin & Hw & Hh & Hq).
  destruct (isDragging st) eqn:D;
    [|rewrite (handlePointerMove_idle p st e D);
      repeat split; try assumption; apply Hin].
  assert (Hin' : inside p (st_crop (fst (handlePointerMove p st e)))).
  { apply drag_inside; [assumption|]. right. left. assumption. }
  destruct (is_handle (dragHandle st) "move") eqn:M.
  - destruct (move_keeps_size p st e M) as [Ew Eh].
    split; [exact Hin'|]. rewrite Ew, Eh. repeat split; assumption.
  - assert (Hr : ~ aspectRatio p == 0) by lra.
    assert (Hx : crop_x (st_crop st) < width p)
      by (destruct Hin as (? & ? & ? & ?); lra).
    assert (Hy : crop_y (st_crop st) < height p)
      by (destruct Hin as (? & ? & ? & ?); lra).
    destruct (locked_resize_positive p st e Hpos D M Hx Hy Hw Hh) as [Pw Ph].
    destruct (locked_resize_ratio p st e Hr D M) as [_ Hq']; try assumption.
    { right. right. split; [lra|assumption]. }
    repeat split; try assumption; apply Hin'.
Qed.

(** The invariant of a locked ratio holds after initialisation and is kept
    by every event. *)
Lemma reachable_locked (p : Props) (evs : list Event) :
  0 < width p -> 0 < height p -> 0 < aspectRatio p ->
  locked_inv p (st_crop (run p (initialized p) evs)).
Proof.
  intros HW HH Hpos.
  assert (Hinit : locked_inv p (st_crop (initialized p))).
  { assert (Hr : ~ aspectRatio p == 0) by lra.
    assert (HHne : ~ height p == 0) by lra.
    unfold initialized, initEffect, locked_inv, inside. cbn [fst st_crop].
    pose proof (initCrop_ratio p Hr) as Eq. revert Eq.
    unfold initCrop.
    destruct (nonzero_cases (aspectRatio p)) as [[-> _]|[_ Z]];
      [|contradiction].
    assert (H2 : ~ 2 == 0) by discriminate.
    split_lt; cbn -[Qdiv Qmult Qplus Qminus Qeq Qle Qlt]; intros Eq.
    - pose proof (lt_div_mul _ _ _ HH H) as L.
      name_quotients HHne.
      assert (N : height p * (8 # 10) * aspectRatio p
                  == (8 # 10) * (aspectRatio p * height p)) by ring.
      assert (P : 0 < aspectRatio p * height p)
        by (apply Qmult_lt_0_compat; assumption).
      split; [name_quotients H2; repeat split; lra|].
      repeat split; try lra.
      apply ratio_of_mul; [lra|assumption].
    - pose proof (le_div_mul _ _ _ HH H) as L.
      name_quotients Hr. name_quotients HHne.
      assert (B : q <= height p * (8 # 10)).
      { apply (mul_le_cancel _ _ (aspectRatio p) Hpos). lra. }
      assert (P : 0 < q).
      { apply (mul_lt_cancel _ _ (aspectRatio p) Hpos). lra. }
      split; [name_quotients H2; repeat split; lra|].
      repeat split; try lra.
      apply ratio_of_mul; assumption. }
  unfold run. generalize dependent (initialized p).
  induction evs as [|ev evs IH]; intros st Hst; cbn [fold_left].
  - exact Hst.
  - apply IH. apply locked_step_inv; assumption.
Qed.

(** Under the free ratio, in a container at least 62.5 wide and high, being
    inside the container and of the minimum size holds after initialisation
    and is kept by every event. *)
Lemma reachable_free (p : Props) (evs : list Event) :
  aspectRatio p == 0 ->
  125 # 2 <= width p ->
  125 # 2 <= height p ->
  let c := st_crop (run p (initialized p) evs) in
  inside p c /\ min_size c.
Proof.
  intros Hr HW HH.
  assert (Hinit : inside p (st_crop (initialized p)) /\
                  min_size (st_crop (initialized p))).
  { assert (H2 : ~ 2 == 0) by discriminate.
    unfold initialized, initEffect, initCrop, inside, min_size.
    cbn [fst st_crop].
    destruct (nonzero_cases (aspectRatio p)) as [[_ N]|[-> _]];
      [contradiction|].
    cbn -[Qdiv Qmult Qplus Qminus Qeq Qle Qlt].
    name_quotients H2. repeat split; lra. }
  unfold run. generalize dependent (initialized p).
  induction evs as [|ev evs IH]; intros st Hst; cbn [fold_left].
  - exact Hst.
  - apply IH. destruct Hst as [Hin Hm].
    split; [|apply free_step_min_size; assumption].
    destruct ev as [e handle|e|]; cbn [step]; try exact Hin.
    apply drag_inside; [exact Hin|]. right. right.
    destruct Hin as (? & ? & ? & ?). destruct Hm as [? ?].
    repeat split; try assumption; lra.
Qed.

End CropOverlayFacts.

(** ** The brush overlay *)

Section BrushOverlayFacts.
Import BrushOverlay.

Lemma step_keeps_invariant (st : State) (ev : Event) :
  Forall well_formed (strokes st) /\ drawing_has_point st ->
  Forall well_formed (strokes (step st ev)) /\ drawing_has_point (step st ev).
Proof.
  intros [Hs Hd]. destruct ev as [p rect e|p rect e|p]; cbn [step].
  - split; [exact Hs|]. intros _. discriminate.
  - unfold handlePointerMove. destruct (isDrawing st) eqn:D; cbn [negb].
    + split; [exact Hs|]. intros _. cbn [currentPoints].
      destruct (currentPoints st); discriminate.
    + split; [exact Hs|]. unfold drawing_has_point. rewrite D. discriminate.
  - unfold handlePointerUp. destruct (isDrawing st) eqn:D; cbn [negb].
    + split; [|intros X; discriminate X]. cbn [strokes].
      destruct (currentPoints st) as [|pt pts] eqn:E;
        cbn [List.length Nat.ltb Nat.leb].
      * exact Hs.
      * apply Forall_app. split; [exact Hs|].
        constructor; [|constructor]. split; [discriminate|reflexivity].
    + split; [exact Hs|]. unfold drawing_has_point. rewrite D. discriminate.
Qed.

Lemma run_keeps_invariant (evs : list Event) (st : State) :
  Forall well_formed (strokes st) /\ drawing_has_point st ->
  Forall well_formed (strokes (run st evs)) /\ drawing_has_point (run st evs).
Proof.
  revert st. induction evs as [|ev evs IH]; intros st Hst; cbn [run fold_left].
  - exact Hst.
  - apply IH. apply step_keeps_invariant. exact Hst.
Qed.

Lemma run_app (st : State) (evs1 evs2 : list Event) :
  run st (evs1 ++ evs2) = run (run st evs1) evs2.
Proof. unfold run. apply fold_left_app. Qed.

(** Moving while drawing appends the mapped pointer positions, in order. *)
Lemma run_moves (ms : list (Props * option DOMRect * PointerEvent))
  (pts : list Point) (ss : list Stroke) :
  run (mkState true pts ss)
      (map (fun m => let '(mp, mr, me) := m in PointerMove mp mr me) ms)
  = mkState true
      (pts ++ map (fun m => let '(mp, mr, me) := m in getPoint mp mr me) ms)
      ss.
Proof.
  revert pts. induction ms as [|[[mp mr] me] ms IH]; intros pts;
    cbn [map run fold_left].
  - rewrite app_nil_r. reflexivity.
  - cbn [step]. unfold handlePointerMove.
    cbn [isDrawing negb currentPoints strokes].
    change (fold_left step ?l ?s) with (run s l). rewrite IH.
    rewrite <- app_assoc. reflexivity.
Qed.

(** C10.  Whatever pointer events the brush overlay has received since it
    was mounted, every stroke in its stroke sequence has at least one point
    and the fixed colour 'rgba(255, 50, 50, 0.5)'; the sequence only changes
    on a pointer-up, which appends one stroke made of the points drawn so
    far (at least one), the brush size of that moment and the fixed colour;
    and a whole gesture appends the stroke whose first point is the
    pointer-down point, followed by the points of the moves. *)
Theorem persisted_strokes_well_formed (evs : list Event) :
  let st := run mount evs in
  Forall (fun s => points s <> [] /\ color s = "rgba(255, 50, 50, 0.5)"%string)
         (strokes st) /\
  (forall ev,
     strokes (step st ev) = strokes st \/
     exists p pt pts,
       ev = PointerUp p /\ currentPoints st = pt :: pts /\
       strokes (step st ev) =
         strokes st ++ [mkStroke (pt :: pts) (brushSize p)
                                 "rgba(255, 50, 50, 0.5)"]) /\
  (forall d ms u,
     strokes (run st (gesture d ms u)) =
       strokes st ++ [mkStroke (gesture_points d ms) (brushSize u)
                               "rgba(255, 50, 50, 0.5)"] /\
     exists pts,
       gesture_points d ms =
         getPoint (fst (fst d)) (snd (fst d)) (snd d) :: pts).
Proof.
  intros st.
  assert (Hinv : Forall well_formed (strokes st) /\ drawing_has_point st).
  { apply run_keeps_invariant. split; [constructor|].
    intros X. discriminate X. }
  destruct Hinv as [Hs Hd]. split; [exact Hs|]. split.
  - intros ev. destruct ev as [p rect e|p rect e|p]; cbn [step].
    + left. reflexivity.
    + left. unfold handlePointerMove. destruct (isDrawing st); reflexivity.
    + unfold handlePointerUp. destruct (isDrawing st) eqn:D; cbn [negb];
        [|left; reflexivity].
      destruct (currentPoints st) as [|pt pts] eqn:E.
      * exfalso. apply (Hd D). exact E.
      * right. exists p, pt, pts. repeat split.
  - intros [[dp dr] de] ms u. split; [|eexists; reflexivity].
    unfold gesture, gesture_points. cbn [run fold_left step].
    change (fold_left step ?l ?s) with (run s l).
    unfold handlePointerDown. rewrite run_app, run_moves.
    cbn [run fold_left step app]. unfold handlePointerUp.
    cbn [isDrawing negb currentPoints strokes List.length Nat.ltb Nat.leb].
    reflexivity.
Qed.

End BrushOverlayFacts.

(** ** The upload boundary *)

Section UploadFacts.
Import App.
Local Open Scope string_scope.
Local Open Scope Z_scope.

Variable createObjectURL : File -> string.

Lemma allowed_type_In (t : string) :
  allowed_type t = true <-> In t ALLOWED_TYPES.
Proof.
  unfold allowed_type. rewrite existsb_exists. split.
  - intros (u & Hin & E). apply String.eqb_eq in E. subst u. exact Hin.
  - intros Hin. exists t. split; [exact Hin|apply String.eqb_refl].
Qed.

(** The handler starts an image load exactly for the files it accepts. *)
Lemma handleFileUpload_accepts (st : State) (file : File) (rest : list File) :
  snd (handleFileUpload createObjectURL st (file :: rest)) <> None <->
  In (file_type file) ALLOWED_TYPES /\ file_size file <= 10 * 1024 * 1024.
Proof.
  cbn [handleFileUpload].
  destruct (allowed_type (file_type file)) eqn:A; cbn [negb].
  - apply allowed_type_In in A.
    change (MAX_FILE_SIZE_MB * 1024 * 1024) with 10485760.
    destruct (Z.ltb_spec 10485760 (file_size file)) as [L|L]; cbn [snd].
    + split; [intros X; now contradiction X|intros [_ X]; lia].
    + split; [intros _; split; [exact A|lia]|discriminate].
  - cbn [snd]. split; [intros X; now contradiction X|].
    intros [Hin _]. apply allowed_type_In in Hin. congruence.
Qed.

(** C8.  The upload handler accepts the first file of the input (starts
    loading it as the image to edit) iff its MIME type is image/jpeg,
    image/png or image/webp and its size is at most 10 MiB.  An accepted
    file clears the error, and once decoded becomes the image state and
    switches to the editor.  Any other file only sets a non-empty error
    message: no load starts, the image state, the preview and the mode are
    as before, and on the upload screen the message is displayed.  A file of
    type image/gif is rejected so. *)
Theorem upload_boundary (st : State) (file : File) (rest : list File) :
  let r := handleFileUpload createObjectURL st (file :: rest) in
  (snd r <> None <->
     In (file_type file) ["image/jpeg"; "image/png"; "image/webp"] /\
     file_size file <= 10 * 1024 * 1024) /\
  (snd r <> None ->
     r = (mkState (mode st) (originalImage st) (previewUrl st) None,
          Some (mkLoading (createObjectURL file) file)) /\
     forall w h,
       let st' :=
         onload (fst r) (mkLoading (createObjectURL file) file) w h in
       mode st' = EDIT /\ originalImage st' <> None) /\
  (snd r = None ->
     exists msg,
       msg <> "" /\
       fst r =
         mkState (mode st) (originalImage st) (previewUrl st) (Some msg) /\
       (mode st = UPLOAD -> render (fst r) = UploadScreen (Some msg))) /\
  (file_type file = "image/gif" ->
     snd r = None /\
     errorMessage (fst r) =
       Some "Unsupported file format. Please use JPG, PNG, or WEBP.").
Proof.
  intros r. split; [apply handleFileUpload_accepts|].
  subst r. cbn [handleFileUpload].
  destruct (allowed_type (file_type file)) eqn:A; cbn [negb].
  - destruct (MAX_FILE_SIZE_MB * 1024 * 1024 <? file_size file) eqn:L;
      cbn [fst snd].
    + split; [intros X; now contradiction X|].
      split.
      * intros _. exists msg_too_large. split; [discriminate|].
        split; [reflexivity|]. intros M. unfold render. cbn [mode errorMessage].
        rewrite M. reflexivity.
      * intros G. rewrite G in A. discriminate A.
    + split.
      * intros _. split; [reflexivity|]. intros w h.
        split; [reflexivity|discriminate].
      * split; [discriminate|].
        intros G. rewrite G in A. discriminate A.
  - cbn [fst snd]. split; [intros X; now contradiction X|].
    split.
    + intros _. exists msg_unsupported. split; [discriminate|].
      split; [reflexivity|]. intros M. unfold render. cbn [mode errorMessage].
      rewrite M. reflexivity.
    + intros _. split; reflexivity.
Qed.

(** With no file chosen the handler does nothing. *)
Lemma handleFileUpload_no_file (st : State) :
  handleFileUpload createObjectURL st [] = (st, None).
Proof. reflexivity. Qed.

End UploadFacts.

(** The scenario of the spec: a GIF dropped on a fresh application. *)
Example upload_gif_rejected :
  let gif := App.mkFile "cat.gif" "image/gif" 2048 in
  let r := App.handleFileUpload (fun f => App.file_name f) App.initial [gif] in
  snd r = None /\
  App.render (fst r) =
    App.UploadScreen
      (Some "Unsupported file format. Please use JPG, PNG, or WEBP."%string).
Proof. split; reflexivity. Qed.

(** The size limit is inclusive: exactly 10 MiB is accepted, one byte more
    is not. *)
Example upload_size_limit :
  let at_limit := App.mkFile "a.png" "image/png" 10485760 in
  let over := App.mkFile "b.png" "image/png" 10485761 in
  snd (App.handleFileUpload (fun f => App.file_name f) App.initial [at_limit])
    <> None /\
  App.render
    (fst (App.handleFileUpload (fun f => App.file_name f) App.initial [over]))
    = App.UploadScreen (Some "File too large. Max size is 10MB."%string).
Proof. split; [discriminate|reflexivity]. Qed.

(** ** The canvas services *)

Section ImageProcessorFacts.
Import imageProcessor.

(** [processImage] settles the same way whatever the options: it resolves
    iff the platform provides the context and the blob. *)
Lemma processImage_resolves (canvas : Canvas) (img : HTMLImageElement)
  (options : ProcessingOptions) :
  getContext_ok canvas = true -> toBlob_ok canvas = true ->
  exists r, processImage canvas img options = Resolved r.
Proof.
  intros C B. unfold processImage. rewrite C, B. cbn [negb].
  destruct (crop options) as [c|]; [destruct (crop_unit c)|];
    eexists; reflexivity.
Qed.

(** What a resolved [processImage] drew, in terms of the source rectangle
    it chose. *)
Lemma processImage_geometry (canvas : Canvas) (img : HTMLImageElement)
  (options : ProcessingOptions) (r : Processed) :
  processImage canvas img options = Resolved r ->
  let scale' := if nonzero (scale options) then scale options else 1 in
  (sx r, sy r, sw r, sh r) =
    match crop options with
    | Some c =>
        match crop_unit c with
        | pct =>
            ((crop_x c / 100) * img_width img,
             (crop_y c / 100) * img_height img,
             (crop_width c / 100) * img_width img,
             (crop_height c / 100) * img_height img)
        | px => (crop_x c, crop_y c, crop_width c, crop_height c)
        end
    | None => (0, 0, img_width img, img_height img)
    end /\
  dw r = sw r * scale' /\ dh r = sh r * scale' /\
  canvas_width r = dw r /\ canvas_height r = dh r.
Proof.
  unfold processImage.
  destruct (getContext_ok canvas); cbn [negb]; [|discriminate].
  destruct (toBlob_ok canvas).
  - destruct (crop options) as [c|]; [destruct (crop_unit c)|];
      destruct (maintainAspect options);
      intros E; injection E as <-; cbn; repeat split; reflexivity.
  - destruct (crop options) as [c|]; [destruct (crop_unit c)|]; discriminate.
Qed.

(** The canvas element of a resolved [processImage] has the dimensions
    the platform makes of the numbers assigned. *)
Lemma processImage_element (canvas : Canvas) (img : HTMLImageElement)
  (options : ProcessingOptions) (r : Processed) :
  processImage canvas img options = Resolved r ->
  element_width r = canvas_dimension 300 (dw r) /\
  element_height r = canvas_dimension 150 (dh r).
Proof.
  unfold processImage.
  destruct (getContext_ok canvas); cbn [negb]; [|discriminate].
  destruct (toBlob_ok canvas).
  - destruct (crop options) as [c|]; [destruct (crop_unit c)|];
      destruct (maintainAspect options);
      intros E; injection E as <-; cbn; split; reflexivity.
  - destruct (crop options) as [c|]; [destruct (crop_unit c)|]; discriminate.
Qed.

(** C4.  Let sourceWidth and sourceHeight be the dimensions of the source
    rectangle the options select in the image (the image's own without a
    crop, the crop's in 'px', the crop's times the image's over 100 in '%'),
    and [scale] the code's [options.scale || 1], which is [options.scale]
    whenever that is not 0.  When the platform provides context and blob the
    transform produces its output, and every output it produces draws that
    source rectangle into the destination rectangle of width
    sourceWidth * scale and height sourceHeight * scale, one factor for both
    axes; the canvas element has the dimensions the platform makes of these
    two numbers, their integer parts when they lie in [0, 2^31).  The
    transform does the same thing whether [maintainAspect] is true or
    false. *)
Theorem processImage_uniform_scale (canvas : Canvas) (img : HTMLImageElement)
  (options : ProcessingOptions) :
  let scale' := if nonzero (scale options) then scale options else 1 in
  let sourceWidth :=
    match crop options with
    | None => img_width img
    | Some c =>
        match crop_unit c with
        | pct => crop_width c / 100 * img_width img
        | px => crop_width c
        end
    end in
  let sourceHeight :=
    match crop options with
    | None => img_height img
    | Some c =>
        match crop_unit c with
        | pct => crop_height c / 100 * img_height img
        | px => crop_height c
        end
    end in
  (forall r, processImage canvas img options = Resolved r ->
     sw r == sourceWidth /\ sh r == sourceHeight /\
     dw r == sourceWidth * scale' /\ dh r == sourceHeight * scale' /\
     element_width r = canvas_dimension 300 (sourceWidth * scale') /\
     element_height r = canvas_dimension 150 (sourceHeight * scale') /\
     (0 <= sourceWidth * scale' -> sourceWidth * scale' < 2147483648 ->
        inject_Z (element_width r) <= sourceWidth * scale' /\
        sourceWidth * scale' < inject_Z (element_width r) + 1) /\
     (0 <= sourceHeight * scale' -> sourceHeight * scale' < 2147483648 ->
        inject_Z (element_height r) <= sourceHeight * scale' /\
        sourceHeight * scale' < inject_Z (element_height r) + 1)) /\
  (~ scale options == 0 -> scale' = scale options) /\
  processImage canvas img
    (mkOptions (scale options) true (crop options) (format options)
               (quality options))
  = processImage canvas img
      (mkOptions (scale options) false (crop options) (format options)
                 (quality options)) /\
  (getContext_ok canvas = true -> toBlob_ok canvas = true ->
   exists r, processImage canvas img options = Resolved r).
Proof.
  intros scale' sourceWidth sourceHeight. split; [|split; [|split]].
  - intros r E.
    destruct (processImage_geometry _ _ _ _ E) as (Hs & Hw & Hh & _ & _).
    destruct (processImage_element _ _ _ _ E) as (Ew & Eh).
    fold scale' in Hw, Hh.
    assert (Esw : sw r = sourceWidth /\ sh r = sourceHeight).
    { subst sourceWidth sourceHeight.
      destruct (crop options) as [c|]; [destruct (crop_unit c)|];
        injection Hs as _ _ -> ->; split; reflexivity. }
    destruct Esw as [Esw Esh]. rewrite Ew, Eh, Hw, Hh, Esw, Esh.
    split; [reflexivity|]. split; [reflexivity|].
    split; [reflexivity|]. split; [reflexivity|].
    split; [reflexivity|]. split; [reflexivity|].
    split; intros P B; apply canvas_dimension_integer_part; assumption.
  - intros N. subst scale'.
    destruct (nonzero_cases (scale options)) as [[-> _]|[_ Z]];
      [reflexivity|contradiction].
  - unfold processImage. cbn [scale maintainAspect crop format quality].
    reflexivity.
  - apply processImage_resolves.
Qed.

(** A fractional destination size: a third of a 500 x 167 image is drawn
    into 166.67 x 55.67, on a canvas of 166 x 55. *)
Example processImage_fractional_size :
  exists r,
    processImage (mkCanvas true true) (mkImage 500 167)
      (mkOptions (1 # 3) true None png 1) = Resolved r /\
    dw r == 500 # 3 /\ dh r == 167 # 3 /\
    element_width r = 166%Z /\ element_height r = 55%Z.
Proof. eexists. split; [reflexivity|]. repeat split. Qed.

(** The canvas of the 1000 x 800 scenario is 200 x 200. *)
Example processImage_scenario_canvas :
  exists r,
    processImage (mkCanvas true true) (mkImage 1000 800)
      (mkOptions (1 # 2) true (Some (mkCropArea 100 100 400 400 px)) png 1)
      = Resolved r /\
    element_width r = 200%Z /\ element_height r = 200%Z.
Proof. eexists. split; [reflexivity|]. split; reflexivity. Qed.




(** [expandImageCanvas] resolves iff the platform provides the context and
    the blob; without the blob it never settles. *)
Lemma expandImageCanvas_outcome (canvas : Canvas) (img : HTMLImageElement)
  (aspectRatio : Q) (fillColor : string) :
  match expandImageCanvas canvas img aspectRatio fillColor with
  | Resolved _ => getContext_ok canvas = true /\ toBlob_ok canvas = true
  | Rejected _ => getContext_ok canvas = false
  | Pending => getContext_ok canvas = true /\ toBlob_ok canvas = false
  end.
Proof.
  unfold expandImageCanvas.
  destruct (Qltb (img_width img / img_height img) aspectRatio);
    destruct (getContext_ok canvas); destruct (toBlob_ok canvas);
    cbn; auto.
Qed.

(** C5, as the code and the platform have it.  For an image of positive
    width and height and a positive target ratio, [expandImageCanvas] (when
    the platform lets it finish) computes a size with newW / newH equal to
    the target ratio, hence within every positive tolerance of it: when the
    target ratio exceeds width/height it keeps the image's height and is
    wider than the image, otherwise it keeps the image's width and is at
    least as high.  That size is filled, and the image is drawn at
    ((newW - width)/2, (newH - height)/2), both non-negative.  The canvas
    itself gets the integer parts of newW and newH as its width and height
    (below 2^31), so the ratio of the canvas is the target ratio only when
    these are integers. *)
Theorem expandImageCanvas_ratio_and_centering (canvas : Canvas)
  (img : HTMLImageElement) (aspectRatio : Q) (fillColor : string) :
  0 < img_width img -> 0 < img_height img -> 0 < aspectRatio ->
  getContext_ok canvas = true -> toBlob_ok canvas = true ->
  exists r,
    expandImageCanvas canvas img aspectRatio fillColor = Resolved r /\
    newW r / newH r == aspectRatio /\
    (forall eps, 0 < eps -> Qabs (newW r / newH r - aspectRatio) < eps) /\
    (img_width img / img_height img < aspectRatio ->
       newH r == img_height img /\
       newW r == img_height img * aspectRatio /\
       img_width img < newW r) /\
    (~ img_width img / img_height img < aspectRatio ->
       newW r == img_width img /\
       newH r == img_width img / aspectRatio /\
       img_height img <= newH r) /\
    draw_dx r == (newW r - img_width img) / 2 /\
    draw_dy r == (newH r - img_height img) / 2 /\
    0 <= draw_dx r /\ 0 <= draw_dy r /\
    fillStyle r = fillColor /\
    (newW r < 2147483648 ->
       inject_Z (expanded_width r) <= newW r /\
       newW r < inject_Z (expanded_width r) + 1) /\
    (newH r < 2147483648 ->
       inject_Z (expanded_height r) <= newH r /\
       newH r < inject_Z (expanded_height r) + 1).
Proof.
  intros HW HH HR C B. unfold expandImageCanvas. rewrite C, B. cbn [negb].
  assert (H2 : ~ 2 == 0) by discriminate.
  assert (HRne : ~ aspectRatio == 0) by lra.
  assert (HHne : ~ img_height img == 0) by lra.
  destruct (Qltb_cases (img_width img / img_height img) aspectRatio)
    as [[-> L]|[-> L]]; eexists; (split; [reflexivity|]);
    cbn [newW newH draw_dx draw_dy fillStyle expanded_width expanded_height].
  - assert (Eq : img_height img * aspectRatio / img_height img == aspectRatio)
      by (field; assumption).
    assert (M' : img_width img < img_height img * aspectRatio).
    { pose proof (div_mul_cancel (img_width img) _ HHne) as Ew.
      rewrite <- Ew. nra. }
    split; [exact Eq|]. split; [apply Qeq_within_tolerance; exact Eq|].
    split; [intros _; repeat split; try reflexivity; exact M'|].
    split; [intros N; contradiction|].
    split; [reflexivity|]. split; [reflexivity|].
    split; [name_quotients H2; lra|]. split; [name_quotients H2; lra|].
    split; [reflexivity|].
    split; intros Bd; apply canvas_dimension_integer_part; lra.
  - assert (Eq : img_width img / (img_width img / aspectRatio) == aspectRatio)
      by (field; split; lra).
    assert (M : aspectRatio * img_height img <= img_width img).
    { pose proof (div_mul_cancel (img_width img) _ HHne) as Ew.
      rewrite <- Ew. nra. }
    assert (G : img_height img <= img_width img / aspectRatio).
    { apply (mul_le_cancel _ _ aspectRatio HR).
      rewrite (div_mul_cancel _ _ HRne). lra. }
    split; [exact Eq|]. split; [apply Qeq_within_tolerance; exact Eq|].
    split; [intros N; exfalso; lra|].
    split; [intros _; repeat split; try reflexivity; exact G|].
    split; [reflexivity|]. split; [reflexivity|].
    split; [name_quotients H2; lra|].
    split; [name_quotients H2; name_quotients HRne; lra|].
    split; [reflexivity|].
    split; intros Bd; apply canvas_dimension_integer_part; lra.
Qed.

Lemma expandImageCanvas_ratio_and_centering_witness :
  exists r,
    expandImageCanvas (mkCanvas true true) (mkImage 800 600) (16 # 9) "white"
      = Resolved r /\
    newW r / newH r == 16 # 9.
Proof.
  destruct (expandImageCanvas_ratio_and_centering (mkCanvas true true)
              (mkImage 800 600) (16 # 9) "white")
    as (r & E & Hq & _); try reflexivity.
  exists r. split; [exact E|exact Hq].
Defined.

(** C5 as stated fails: for an 800 x 600 image and the target 16:9 the
    canvas produced is 1066 x 600, and 1066/600 is more than a thousandth
    away from 16/9. *)
Lemma expanded_canvas_misses_ratio :
  exists r,
    expandImageCanvas (mkCanvas true true) (mkImage 800 600) (16 # 9) "white"
      = Resolved r /\
    expanded_width r = 1066%Z /\ expanded_height r = 600%Z /\
    ~ inject_Z (expanded_width r) / inject_Z (expanded_height r) == 16 # 9 /\
    1 # 1000 <
      Qabs (inject_Z (expanded_width r) / inject_Z (expanded_height r)
            - (16 # 9)).
Proof.
  eexists. split; [reflexivity|]. cbn [expanded_width expanded_height].
  split; [reflexivity|]. split; [reflexivity|].
  split; [intros X; vm_compute in X; discriminate X|].
  vm_compute. reflexivity.
Qed.

(** The scenario of the spec: 800 x 600 expanded to 16:9 keeps the height
    600, gets the width 600 * 16/9 = 1066.67 and pads 133.33 on each side. *)
Example expand_800x600_to_16_9 :
  expandImageCanvas (mkCanvas true true) (mkImage 800 600) (16 # 9) "white"
  = Resolved (mkExpanded (600 * (16 # 9)) 600 1066 600 "white"
                ((600 * (16 # 9) - 800) / 2) ((600 - 600) / 2)) /\
  600 * (16 # 9) == 3200 # 3 /\
  (600 * (16 # 9) - 800) / 2 == 400 # 3.
Proof. repeat split. Qed.

End ImageProcessorFacts.

(** * Further properties *)

(** ** The crop overlay, over whole sessions *)

Section CropOverlaySessions.
Import CropOverlay.

(** X1.  In a container of positive size and under a ratio locked to a
    positive value, every region the overlay goes through after
    initialisation, whatever the pointer events, is inside the container, of
    positive width and height, and of exactly the locked ratio. *)
Theorem locked_ratio_always (p : Props) (evs : list Event) :
  0 < width p -> 0 < height p -> 0 < aspectRatio p ->
  let c := st_crop (run p (initialized p) evs) in
  (0 <= crop_x c /\ 0 <= crop_y c /\
   crop_x c + crop_width c <= width p /\
   crop_y c + crop_height c <= height p) /\
  0 < crop_width c /\ 0 < crop_height c /\
  crop_width c / crop_height c == aspectRatio p.
Proof. intros HW HH HR. exact (reachable_locked p evs HW HH HR). Qed.

Lemma locked_ratio_always_witness :
  let p := mkProps 400 300 (4 # 5) in
  let evs := [PointerDown (mkPointerEvent 0 0) "se";
              PointerMove (mkPointerEvent 500 (-20));
              PointerUp;
              PointerDown (mkPointerEvent 0 0) "move";
              PointerMove (mkPointerEvent 300 300)] in
  let c := st_crop (run p (initialized p) evs) in
  crop_width c / crop_height c == 4 # 5.
Proof.
  intros p evs c. apply (locked_ratio_always p evs); reflexivity.
Defined.

(** X2.  With the ratio unlocked and a container at least 62.5 wide and
    high, every region the overlay goes through after initialisation is
    inside the container and at least 50 x 50. *)
Theorem free_ratio_always (p : Props) (evs : list Event) :
  aspectRatio p == 0 ->
  125 # 2 <= width p ->
  125 # 2 <= height p ->
  let c := st_crop (run p (initialized p) evs) in
  (0 <= crop_x c /\ 0 <= crop_y c /\
   crop_x c + crop_width c <= width p /\
   crop_y c + crop_height c <= height p) /\
  50 <= crop_width c /\ 50 <= crop_height c.
Proof. intros Hr HW HH. exact (reachable_free p evs Hr HW HH). Qed.

Lemma free_ratio_always_witness :
  let p := mkProps 100 80 0 in
  let evs := [PointerDown (mkPointerEvent 0 0) "move";
              PointerMove (mkPointerEvent 300 300);
              PointerUp;
              PointerDown (mkPointerEvent 0 0) "se";
              PointerMove (mkPointerEvent 300 (-300))] in
  let c := st_crop (run p (initialized p) evs) in
  crop_x c + crop_width c <= 100 /\ 50 <= crop_height c.
Proof.
  intros p evs c.
  destruct (free_ratio_always p evs) as ((_ & _ & Hw & _) & _ & Hh);
    [reflexivity | vm_compute; discriminate | vm_compute; discriminate |].
  split; [exact Hw|exact Hh].
Defined.

Lemma handlePointerMove_keeps_gesture (p : Props) (st : State)
  (e : PointerEvent) :
  let st' := fst (handlePointerMove p st e) in
  isDragging st' = isDragging st /\ dragHandle st' = dragHandle st /\
  startPos st' = startPos st.
Proof.
  unfold handlePointerMove. destruct (isDragging st) eqn:D; cbn [negb fst];
    [cbn [isDragging dragHandle startPos]|rewrite D];
    repeat split; reflexivity.
Qed.

(** What a pointer move leaves of the region: a move keeps the size, a
    resize the origin, and a free resize the dimension its handle does not
    drive. *)
Lemma handlePointerMove_frame (p : Props) (st : State) (e : PointerEvent) :
  let c := st_crop st in
  let n := st_crop (fst (handlePointerMove p st e)) in
  crop_unit n = crop_unit c /\
  (is_handle (dragHandle st) "move" = true ->
     crop_width n = crop_width c /\ crop_height n = crop_height c) /\
  (is_handle (dragHandle st) "move" = false ->
     crop_x n = crop_x c /\ crop_y n = crop_y c /\
     (nonzero (aspectRatio p) = false ->
        (includes_opt (dragHandle st) "e" = false ->
           crop_width n = crop_width c) /\
        (includes_opt (dragHandle st) "s" = false ->
           crop_height n = crop_height c))).
Proof.
  unfold handlePointerMove.
  destruct (isDragging st); cbn [negb fst];
    [|repeat split; reflexivity].
  destruct (is_handle (dragHandle st) "move");
    [repeat split; intros; try reflexivity; discriminate|].
  destruct (includes_opt (dragHandle st) "e");
    destruct (includes_opt (dragHandle st) "s");
    destruct (nonzero (aspectRatio p));
    cbn [st_crop set_width set_height crop_x crop_y crop_width crop_height
         crop_unit];
    repeat match goal with
      | |- context [if Qltb ?a ?b then _ else _] => destruct (Qltb a b)
      end;
    repeat split; intros; try reflexivity; discriminate.
Qed.

(** The handler reads the region only through what the gesture leaves
    alone: two states in the same gesture whose regions agree there get the
    same result. *)
Lemma handlePointerMove_ext (p : Props) (st st' : State) (e : PointerEvent) :
  isDragging st = isDragging st' ->
  dragHandle st = dragHandle st' ->
  startPos st = startPos st' ->
  (isDragging st = false -> st_crop st = st_crop st') ->
  crop_unit (st_crop st) = crop_unit (st_crop st') ->
  (is_handle (dragHandle st) "move" = true ->
     crop_width (st_crop st) = crop_width (st_crop st') /\
     crop_height (st_crop st) = crop_height (st_crop st')) ->
  (is_handle (dragHandle st) "move" = false ->
     crop_x (st_crop st) = crop_x (st_crop st') /\
     crop_y (st_crop st) = crop_y (st_crop st') /\
     (includes_opt (dragHandle st) "e" = false ->
        nonzero (aspectRatio p) = false \/
        includes_opt (dragHandle st) "s" = false ->
        crop_width (st_crop st) = crop_width (st_crop st')) /\
     (includes_opt (dragHandle st) "s" = false ->
        nonzero (aspectRatio p) = false \/
        includes_opt (dragHandle st) "e" = false ->
        crop_height (st_crop st) = crop_height (st_crop st'))) ->
  handlePointerMove p st e = handlePointerMove p st' e.
Proof.
  destruct st as [[x y w h u] d hd sp], st' as [[x' y' w' h' u'] d' hd' sp'].
  cbn [isDragging dragHandle startPos st_crop crop_x crop_y crop_width
       crop_height crop_unit].
  intros <- <- <- Hidle <- Hmove Hresize.
  unfold handlePointerMove.
  cbn [isDragging dragHandle startPos st_crop].
  destruct d; cbn [negb]; [|rewrite Hidle; reflexivity].
  destruct (is_handle hd "move").
  - destruct Hmove as [<- <-]; reflexivity.
  - destruct Hresize as (<- & <- & Hw & Hh); [reflexivity|].
    destruct (includes_opt hd "e"), (includes_opt hd "s"),
      (nonzero (aspectRatio p));
      cbn [set_width set_height crop_x crop_y crop_width crop_height
           crop_unit];
      try rewrite <- Hw by auto; try rewrite <- Hh by auto;
      reflexivity.
Qed.

(** During a drag with the move handle, a handle driving an edge, or any
    handle under the free ratio, an earlier pointer move leaves no trace in
    what the next one gives. *)
Lemma move_forgets_previous_move (p : Props) (st : State)
  (e1 e2 : PointerEvent) :
  nonzero (aspectRatio p) = false \/
  is_handle (dragHandle st) "move" = true \/
  includes_opt (dragHandle st) "e" = true \/
  includes_opt (dragHandle st) "s" = true ->
  handlePointerMove p (fst (handlePointerMove p st e1)) e2 =
  handlePointerMove p st e2.
Proof.
  intros Hc.
  destruct (handlePointerMove_keeps_gesture p st e1) as (Hd & Hh & Hs).
  destruct (handlePointerMove_frame p st e1) as (Hu & Hmove & Hresize).
  apply handlePointerMove_ext.
  - exact Hd.
  - exact Hh.
  - exact Hs.
  - rewrite Hd. intros D.
    rewrite (handlePointerMove_idle p st e1 D). reflexivity.
  - exact Hu.
  - rewrite Hh. exact Hmove.
  - rewrite Hh. intros M. destruct (Hresize M) as (Hx & Hy & Hfree).
    split; [exact Hx|]. split; [exact Hy|]. split.
    + intros Ee [N|Es].
      * apply (Hfree N). exact Ee.
      * destruct Hc as [N|[X|[X|X]]]; try congruence.
        apply (Hfree N). exact Ee.
    + intros Es [N|Ee].
      * apply (Hfree N). exact Es.
      * destruct Hc as [N|[X|[X|X]]]; try congruence.
        apply (Hfree N). exact Es.
Qed.

(** X3.  No drift: the region after any number of pointer moves is the one
    the last move alone gives from the state the moves started in.  (For the
    move handle, for a handle driving the east or south edge, and for any
    handle when the ratio is free; whether a drag is in progress or not.) *)
Theorem drag_follows_last_move (p : Props) (st : State)
  (es : list PointerEvent) (e : PointerEvent) :
  nonzero (aspectRatio p) = false \/
  is_handle (dragHandle st) "move" = true \/
  includes_opt (dragHandle st) "e" = true \/
  includes_opt (dragHandle st) "s" = true ->
  run p st (map PointerMove (es ++ [e])) = fst (handlePointerMove p st e).
Proof.
  revert st. induction es as [|e1 es IH]; intros st Hc.
  - reflexivity.
  - cbn [app map run fold_left step].
    change (fold_left (step p) ?l ?s) with (run p s l).
    destruct (handlePointerMove_keeps_gesture p st e1) as (_ & Hh & _).
    rewrite IH by (rewrite Hh; exact Hc).
    rewrite move_forgets_previous_move by exact Hc. reflexivity.
Qed.

Lemma drag_follows_last_move_witness :
  let p := mkProps 400 300 (16 # 9) in
  let st := handlePointerDown (initialized p) (mkPointerEvent 0 0) "se" in
  run p st (map PointerMove [mkPointerEvent 500 500; mkPointerEvent (-90) 7;
                             mkPointerEvent 30 (-40)])
  = fst (handlePointerMove p st (mkPointerEvent 30 (-40))).
Proof.
  intros p st.
  apply (drag_follows_last_move p st
           [mkPointerEvent 500 500; mkPointerEvent (-90) 7]
           (mkPointerEvent 30 (-40))).
  right. right. left. reflexivity.
Defined.

(** X4.  A move drag of a region that fits in the container keeps its
    size and puts its origin where the gesture's start origin plus the
    pointer's displacement is, each coordinate cut to the range that keeps
    the region in the container. *)
Theorem move_follows_pointer (p : Props) (st : State) (e : PointerEvent) :
  isDragging st = true ->
  is_handle (dragHandle st) "move" = true ->
  crop_width (st_crop st) <= width p ->
  crop_height (st_crop st) <= height p ->
  let x0 := start_cx (startPos st) + (clientX e - start_x (startPos st)) in
  let y0 := start_cy (startPos st) + (clientY e - start_y (startPos st)) in
  let maxX := width p - crop_width (st_crop st) in
  let maxY := height p - crop_height (st_crop st) in
  let next := st_crop (fst (handlePointerMove p st e)) in
  crop_width next = crop_width (st_crop st) /\
  crop_height next = crop_height (st_crop st) /\
  (0 <= x0 <= maxX -> crop_x next == x0) /\
  (x0 < 0 -> crop_x next == 0) /\
  (maxX < x0 -> crop_x next == maxX) /\
  (0 <= y0 <= maxY -> crop_y next == y0) /\
  (y0 < 0 -> crop_y next == 0) /\
  (maxY < y0 -> crop_y next == maxY).
Proof.
  intros D M HW HH x0 y0 maxX maxY next. subst next x0 y0 maxX maxY.
  unfold handlePointerMove. rewrite D, M. cbn [negb fst st_crop].
  cbn [set_x set_y crop_x crop_y crop_width crop_height crop_unit].
  split; [reflexivity|]. split; [reflexivity|].
  repeat split_min; repeat split_max; repeat split; intros; lra.
Qed.

Lemma move_follows_pointer_witness :
  let p := mkProps 400 300 0 in
  let st := handlePointerDown (initialized p) (mkPointerEvent 10 10) "move" in
  let next := st_crop (fst (handlePointerMove p st (mkPointerEvent 25 0))) in
  crop_x next == 55.
Proof.
  intros p st next.
  destruct (move_follows_pointer p st (mkPointerEvent 25 0)
              eq_refl eq_refl
              ltac:(vm_compute; discriminate) ltac:(vm_compute; discriminate))
    as (_ & _ & Hx & _).
  refine (Qeq_trans _ _ _ (Hx _) _);
    [split; vm_compute; discriminate | reflexivity].
Defined.

End CropOverlaySessions.

(** ** The crop overlay: what a gesture can and cannot change *)

Section CropOverlayGestures.
Import CropOverlay.

(** X21.  The region changes only by a pointer move during a drag:
    pressing and releasing the pointer never change it, and neither does a
    move when no drag is in progress; a region is emitted to the application
    exactly when a move arrives during a drag. *)
Theorem region_changes_only_in_drag (p : Props) (st : State) (ev : Event) :
  (st_crop (step p st ev) <> st_crop st ->
     isDragging st = true /\ exists e, ev = PointerMove e) /\
  (forall e,
     snd (handlePointerMove p st e) <> None <-> isDragging st = true) /\
  isDragging (step p st ev) =
    match ev with
    | PointerDown _ _ => true
    | PointerMove _ => isDragging st
    | PointerUp => false
    end.
Proof.
  split; [|split].
  - destruct ev as [e handle|e|]; cbn [step handlePointerDown handlePointerUp
                                         st_crop].
    + intros N. now contradiction N.
    + intros N. destruct (isDragging st) eqn:D.
      * split; [reflexivity|]. exists e. reflexivity.
      * rewrite (handlePointerMove_idle p st e D) in N. now contradiction N.
    + intros N. now contradiction N.
  - intros e. unfold handlePointerMove.
    destruct (isDragging st); cbn [negb snd]; split; intros X;
      try reflexivity; try discriminate; try (now contradiction X).
  - destruct ev as [e handle|e|]; cbn [step]; try reflexivity.
    apply (handlePointerMove_keeps_gesture p st e).
Qed.

(** X22.  A resize keeps the region's origin where it is, under any ratio
    setting; and with the ratio free, while there are 50 units of room
    between the origin and the container's right and bottom edges, the "se"
    handle puts the width and the height at the size the gesture started
    with plus the pointer's displacement, cut to [50, W - x] and
    [50, H - y]. *)
Theorem resize_anchors_origin (p : Props) (st : State) (e : PointerEvent) :
  isDragging st = true ->
  is_handle (dragHandle st) "move" = false ->
  let next := st_crop (fst (handlePointerMove p st e)) in
  let w0 := start_cw (startPos st) + (clientX e - start_x (startPos st)) in
  let h0 := start_ch (startPos st) + (clientY e - start_y (startPos st)) in
  let maxW := width p - crop_x (st_crop st) in
  let maxH := height p - crop_y (st_crop st) in
  crop_x next = crop_x (st_crop st) /\
  crop_y next = crop_y (st_crop st) /\
  (aspectRatio p == 0 -> dragHandle st = Some "se"%string ->
   50 <= maxW -> 50 <= maxH ->
   (50 <= w0 <= maxW -> crop_width next == w0) /\
   (w0 < 50 -> crop_width next == 50) /\
   (maxW < w0 -> crop_width next == maxW) /\
   (50 <= h0 <= maxH -> crop_height next == h0) /\
   (h0 < 50 -> crop_height next == 50) /\
   (maxH < h0 -> crop_height next == maxH)).
Proof.
  intros D M next w0 h0 maxW maxH. subst next w0 h0 maxW maxH.
  unfold handlePointerMove. rewrite D, M. cbn [negb fst st_crop].
  split; [|split].
  - destruct (includes_opt (dragHandle st) "e");
      destruct (includes_opt (dragHandle st) "s");
      destruct (nonzero (aspectRatio p));
      repeat match goal with
        | |- context [if ?b then _ else _] => destruct b
        end; reflexivity.
  - destruct (includes_opt (dragHandle st) "e");
      destruct (includes_opt (dragHandle st) "s");
      destruct (nonzero (aspectRatio p));
      repeat match goal with
        | |- context [if ?b then _ else _] => destruct b
        end; reflexivity.
  - intros Hr Hse Rw Rh. rewrite Hse.
    destruct (nonzero_cases (aspectRatio p)) as [[_ N]|[-> _]];
      [contradiction|].
    cbn [includes_opt].
    change (includes "se" "e") with true. change (includes "se" "s") with true.
    cbn [set_width set_height crop_x crop_y crop_width crop_height crop_unit].
    repeat split_min; repeat split_max; repeat split; intros; lra.
Qed.

Lemma resize_anchors_origin_witness :
  let p := mkProps 400 300 0 in
  let st := handlePointerDown (initialized p) (mkPointerEvent 0 0) "se" in
  let next :=
    st_crop (fst (handlePointerMove p st (mkPointerEvent (-20) 500))) in
  crop_x next == 40 /\ crop_width next == 300 /\ crop_height next == 270.
Proof.
  intros p st next. subst next.
  destruct (resize_anchors_origin p st (mkPointerEvent (-20) 500)
              eq_refl eq_refl) as (Hx & _ & Hfree).
  destruct (Hfree ltac:(reflexivity) eq_refl
              ltac:(vm_compute; discriminate) ltac:(vm_compute; discriminate))
    as (Hw & _ & _ & _ & _ & Hh).
  split; [rewrite Hx; reflexivity|]. split.
  - refine (Qeq_trans _ _ _ (Hw _) _);
      [split; vm_compute; discriminate | reflexivity].
  - refine (Qeq_trans _ _ _ (Hh _) _); reflexivity.
Defined.

End CropOverlayGestures.

(** ** The brush overlay: coordinates, painting and the mask kept by the
    application *)

Section BrushOverlayPainting.
Import BrushOverlay.

(** X5.  [getPoint] maps the displayed canvas rectangle onto the canvas's
    own coordinate space, each axis by its own factor: a pointer within the
    rectangle lands within [0, width] x [0, height], its top-left corner on
    (0, 0), its bottom-right corner on (width, height); and when the canvas
    is displayed at its own size the point is the pointer's offset in the
    rectangle. *)
Theorem getPoint_maps_rect_onto_canvas (p : Props) (r : DOMRect)
  (e : PointerEvent) :
  0 < rect_width r -> 0 < rect_height r ->
  0 <= width p -> 0 <= height p ->
  let q := getPoint p (Some r) e in
  (rect_left r <= clientX e <= rect_left r + rect_width r ->
     0 <= pt_x q <= width p) /\
  (rect_top r <= clientY e <= rect_top r + rect_height r ->
     0 <= pt_y q <= height p) /\
  (clientX e == rect_left r -> pt_x q == 0) /\
  (clientY e == rect_top r -> pt_y q == 0) /\
  (clientX e == rect_left r + rect_width r -> pt_x q == width p) /\
  (clientY e == rect_top r + rect_height r -> pt_y q == height p) /\
  (rect_width r == width p -> pt_x q == clientX e - rect_left r) /\
  (rect_height r == height p -> pt_y q == clientY e - rect_top r).
Proof.
  intros Hw Hh HW HH q. subst q. cbn [getPoint pt_x pt_y].
  assert (Nw : ~ rect_width r == 0) by lra.
  assert (Nh : ~ rect_height r == 0) by lra.
  pose proof (div_mul_cancel (width p) _ Nw) as Ew.
  pose proof (div_mul_cancel (height p) _ Nh) as Eh.
  set (kx := width p / rect_width r) in *.
  set (ky := height p / rect_height r) in *.
  assert (Kx : 0 <= kx) by nra.
  assert (Ky : 0 <= ky) by nra.
  repeat split; intros;
    try match goal with E : _ == _ |- _ => rewrite E end.
  - nra.
  - nra.
  - nra.
  - nra.
  - ring.
  - ring.
  - setoid_replace (rect_left r + rect_width r - rect_left r)
      with (rect_width r) by ring. lra.
  - setoid_replace (rect_top r + rect_height r - rect_top r)
      with (rect_height r) by ring. lra.
  - assert (K1 : kx == 1) by nra. rewrite K1. ring.
  - assert (K1 : ky == 1) by nra. rewrite K1. ring.
Qed.

Lemma getPoint_maps_rect_onto_canvas_witness :
  let p := mkProps 800 600 40 in
  let r := mkRect 100 50 400 300 in
  let q := getPoint p (Some r) (mkPointerEvent 300 200) in
  0 <= pt_x q <= 800 /\ 0 <= pt_y q <= 600.
Proof.
  intros p r q.
  destruct (getPoint_maps_rect_onto_canvas p r (mkPointerEvent 300 200))
    as (Hx & Hy & _); try reflexivity; try (vm_compute; discriminate).
  split; [apply Hx|apply Hy]; split; vm_compute; discriminate.
Defined.

(** What [drawStroke] issues for a stroke. *)
Lemma drawStroke_ops (s : Stroke) :
  drawStroke s =
    [beginPath; set_strokeStyle (color s); set_lineWidth (size s)]
    ++ match points s with
       | [] => []
       | p0 :: rest =>
           moveTo (pt_x p0) (pt_y p0)
             :: map (fun q => lineTo (pt_x q) (pt_y q)) rest
       end
    ++ [stroke].
Proof. unfold drawStroke. destruct (points s); reflexivity. Qed.

Lemma path_points_app (a b : list CanvasOp) :
  path_points (a ++ b) = path_points a ++ path_points b.
Proof. unfold path_points. apply flat_map_app. Qed.

Lemma path_points_lines (l : list Point) :
  path_points (map (fun q => lineTo (pt_x q) (pt_y q)) l) = l.
Proof.
  induction l as [|[x y] l IH]; [reflexivity|].
  cbn [map]. change (path_points (?a :: ?l)) with
    (path_points [a] ++ path_points l) at 1.
  rewrite IH. reflexivity.
Qed.

Lemma path_points_drawStroke (s : Stroke) :
  path_points (drawStroke s) = points s.
Proof.
  rewrite drawStroke_ops. rewrite !path_points_app.
  destruct (points s) as [|[x y] rest]; [reflexivity|].
  change (path_points (?a :: ?l)) with (path_points [a] ++ path_points l).
  rewrite path_points_lines. cbn. rewrite app_nil_r. reflexivity.
Qed.

Lemma path_points_strokes (ss : list Stroke) :
  path_points (flat_map drawStroke ss) = flat_map points ss.
Proof.
  induction ss as [|s ss IH]; [reflexivity|].
  cbn [flat_map]. rewrite path_points_app, path_points_drawStroke, IH.
  reflexivity.
Qed.

(** The compositor's inline stroke drawing is the overlay's [drawStroke]. *)
Lemma composite_ops_spec (canvas : imageProcessor.Canvas)
  (img : imageProcessor.HTMLImageElement) (ss : list Stroke) (w h : Q)
  (r : imageProcessor.Composite) :
  imageProcessor.compositeMaskOntoImage canvas img ss w h
    = imageProcessor.Resolved r ->
  imageProcessor.composite_width r = w /\
  imageProcessor.composite_height r = h /\
  imageProcessor.composite_ops r =
    [drawImage 0 0 w h; set_lineCap "round"; set_lineJoin "round"]
    ++ flat_map drawStroke ss.
Proof.
  unfold imageProcessor.compositeMaskOntoImage.
  destruct (imageProcessor.getContext_ok canvas); cbn [negb]; [|discriminate].
  destruct (imageProcessor.toBlob_ok canvas); [|discriminate].
  intros E. injection E as <-. repeat split.
Qed.

Lemma composite_resolves (canvas : imageProcessor.Canvas)
  (img : imageProcessor.HTMLImageElement) (ss : list Stroke) (w h : Q) :
  imageProcessor.getContext_ok canvas = true ->
  imageProcessor.toBlob_ok canvas = true ->
  exists r,
    imageProcessor.compositeMaskOntoImage canvas img ss w h
      = imageProcessor.Resolved r.
Proof.
  intros C B. unfold imageProcessor.compositeMaskOntoImage.
  rewrite C, B. eexists. reflexivity.
Qed.

(** X6.  What the compositor sends is what the overlay showed: when the
    platform lets it finish, [compositeMaskOntoImage] makes a canvas of the
    size asked for, draws the image over all of it, and then issues exactly
    the calls the overlay's repaint issues after clearing its canvas when it
    holds the same strokes and none in progress. *)
Theorem composite_replays_overlay (canvas : imageProcessor.Canvas)
  (img : imageProcessor.HTMLImageElement) (st : State) (p : Props)
  (w h : Q) :
  imageProcessor.getContext_ok canvas = true ->
  imageProcessor.toBlob_ok canvas = true ->
  currentPoints st = [] ->
  exists r calls,
    imageProcessor.compositeMaskOntoImage canvas img (strokes st) w h
      = imageProcessor.Resolved r /\
    imageProcessor.composite_width r = w /\
    imageProcessor.composite_height r = h /\
    imageProcessor.composite_ops r = drawImage 0 0 w h :: calls /\
    repaint p true st =
      Some (clearRect 0 0 (width p) (height p) :: calls, strokes st).
Proof.
  intros C B Hcur.
  destruct (composite_resolves canvas img (strokes st) w h C B) as [r E].
  destruct (composite_ops_spec _ _ _ _ _ _ E) as (Ew & Eh & Eo).
  exists r. eexists. split; [exact E|]. split; [exact Ew|].
  split; [exact Eh|]. split; [exact Eo|].
  unfold repaint. rewrite Hcur. cbn [negb List.length Nat.ltb Nat.leb].
  rewrite app_nil_r. reflexivity.
Qed.

Lemma composite_replays_overlay_witness :
  let st := run mount (gesture (mkProps 800 600 40, None, mkPointerEvent 1 2)
                               [(mkProps 800 600 40, None, mkPointerEvent 3 4)]
                               (mkProps 800 600 25)) in
  exists r calls,
    imageProcessor.compositeMaskOntoImage
      (imageProcessor.mkCanvas true true) (imageProcessor.mkImage 1600 1200)
      (strokes st) 800 600 = imageProcessor.Resolved r /\
    imageProcessor.composite_ops r = drawImage 0 0 800 600 :: calls /\
    repaint (mkProps 800 600 25) true st =
      Some (clearRect 0 0 800 600 :: calls, strokes st).
Proof.
  intros st.
  destruct (composite_replays_overlay (imageProcessor.mkCanvas true true)
              (imageProcessor.mkImage 1600 1200) st (mkProps 800 600 25)
              800 600)
    as (r & calls & E & _ & _ & Eo & Er); try reflexivity.
  exists r, calls. repeat split; assumption.
Defined.

(** X7.  The compositor's paths go through the recorded points, all of
    them, in order: reading the points of its [moveTo] and [lineTo] calls
    gives the strokes' points, stroke after stroke; so the calls of a later
    stroke come after those of an earlier one, and a stroke list put
    together from two parts is painted as the first part, then the second. *)
Theorem composite_paths_follow_points (canvas : imageProcessor.Canvas)
  (img : imageProcessor.HTMLImageElement) (ss1 ss2 : list Stroke) (w h : Q) :
  forall r,
    imageProcessor.compositeMaskOntoImage canvas img (ss1 ++ ss2) w h
      = imageProcessor.Resolved r ->
    path_points (imageProcessor.composite_ops r)
      = flat_map points ss1 ++ flat_map points ss2 /\
    exists r1,
      imageProcessor.compositeMaskOntoImage canvas img ss1 w h
        = imageProcessor.Resolved r1 /\
      imageProcessor.composite_ops r
        = imageProcessor.composite_ops r1 ++ flat_map drawStroke ss2.
Proof.
  intros r E.
  destruct (composite_ops_spec _ _ _ _ _ _ E) as (_ & _ & Eo).
  split.
  - rewrite Eo, path_points_app, path_points_strokes, flat_map_app.
    reflexivity.
  - assert (C : imageProcessor.getContext_ok canvas = true /\
                imageProcessor.toBlob_ok canvas = true).
    { revert E. unfold imageProcessor.compositeMaskOntoImage.
      destruct (imageProcessor.getContext_ok canvas); cbn [negb];
        [|discriminate].
      destruct (imageProcessor.toBlob_ok canvas); [|discriminate]. auto. }
    destruct C as [C B].
    destruct (composite_resolves canvas img ss1 w h C B) as [r1 E1].
    exists r1. split; [exact E1|].
    destruct (composite_ops_spec _ _ _ _ _ _ E1) as (_ & _ & Eo1).
    rewrite Eo, Eo1, flat_map_app, app_assoc. reflexivity.
Qed.

Lemma composite_paths_follow_points_witness :
  let s1 := mkStroke [mkPoint 1 2; mkPoint 3 4] 40 STROKE_COLOR in
  let s2 := mkStroke [mkPoint 5 6] 25 STROKE_COLOR in
  exists r,
    imageProcessor.compositeMaskOntoImage (imageProcessor.mkCanvas true true)
      (imageProcessor.mkImage 1600 1200) ([s1] ++ [s2]) 800 600
      = imageProcessor.Resolved r /\
    path_points (imageProcessor.composite_ops r)
      = [mkPoint 1 2; mkPoint 3 4; mkPoint 5 6].
Proof.
  intros s1 s2. eexists. split; [reflexivity|].
  apply (composite_paths_follow_points (imageProcessor.mkCanvas true true)
           (imageProcessor.mkImage 1600 1200) [s1] [s2] 800 600).
  reflexivity.
Defined.

End BrushOverlayPainting.

Section MaskSessionFacts.
Import BrushOverlay.

(** A whole gesture appends its stroke, whatever the overlay was doing. *)
Lemma gesture_appends (st : State)
  (d : Props * option DOMRect * PointerEvent)
  (ms : list (Props * option DOMRect * PointerEvent)) (u : Props) :
  run st (gesture d ms u) =
    mkState false []
      (strokes st ++ [mkStroke (gesture_points d ms) (brushSize u)
                               STROKE_COLOR]).
Proof.
  destruct d as [[dp dr] de].
  unfold gesture, gesture_points. cbn [run fold_left step].
  change (fold_left step ?l ?s) with (run s l).
  unfold handlePointerDown. rewrite run_app, run_moves.
  cbn [run fold_left step app]. unfold handlePointerUp.
  cbn [isDrawing negb currentPoints strokes List.length Nat.ltb Nat.leb].
  reflexivity.
Qed.

Lemma session_overlay (ctx : bool) (s : MaskSession.State)
  (evs : list Event) :
  MaskSession.overlay
    (MaskSession.run ctx s (map MaskSession.Pointer evs))
  = run (MaskSession.overlay s) evs.
Proof.
  revert s. induction evs as [|ev evs IH]; intros s; [reflexivity|].
  cbn [map MaskSession.run fold_left run].
  change (fold_left (MaskSession.step ctx) ?l ?x)
    with (MaskSession.run ctx x l).
  change (fold_left step ?l ?x) with (run x l).
  rewrite IH. f_equal. cbn [MaskSession.step].
  destruct (sets_state (MaskSession.overlay s) ev); [|reflexivity].
  destruct (repaint (props_of ev) ctx (step (MaskSession.overlay s) ev))
    as [[ops rep]|]; reflexivity.
Qed.

(** With the canvas context there, the application's copy is the
    overlay's list right after every event that sets overlay state. *)
Lemma session_sync_last (s : MaskSession.State) (evs : list Event)
  (ev : Event) :
  sets_state (run (MaskSession.overlay s) evs) ev = true ->
  let s' := MaskSession.run true s (map MaskSession.Pointer (evs ++ [ev])) in
  MaskSession.maskStrokes s' = strokes (MaskSession.overlay s').
Proof.
  intros Hs s'. subst s'. rewrite map_app. unfold MaskSession.run.
  rewrite fold_left_app. cbn [map fold_left].
  change (fold_left (MaskSession.step true) ?l ?x)
    with (MaskSession.run true x l).
  cbn [MaskSession.step]. rewrite session_overlay, Hs.
  unfold repaint. cbn [negb]. reflexivity.
Qed.

(** X8.  "Clear Mask" empties the application's copy of the strokes but
    not the overlay's own list, and the overlay reports its whole list again
    the next time the pointer goes down on it: after a gesture, a clear and a
    pointer-down the application holds every stroke drawn before the clear,
    the gesture's included.  (With the canvas context available, as it is
    whenever the overlay paints.) *)
Theorem clear_mask_is_undone_by_next_stroke (s : MaskSession.State)
  (d : Props * option DOMRect * PointerEvent)
  (ms : list (Props * option DOMRect * PointerEvent)) (u : Props)
  (p : Props) (rect : option DOMRect) (e : PointerEvent) :
  let drawn :=
    MaskSession.run true s (map MaskSession.Pointer (gesture d ms u)) in
  let cleared := MaskSession.step true drawn MaskSession.ClearMask in
  let touched :=
    MaskSession.step true cleared
      (MaskSession.Pointer (PointerDown p rect e)) in
  let drawn_strokes :=
    strokes (MaskSession.overlay s)
      ++ [mkStroke (gesture_points d ms) (brushSize u)
                   "rgba(255, 50, 50, 0.5)"] in
  MaskSession.maskStrokes drawn = drawn_strokes /\
  MaskSession.maskStrokes cleared = [] /\
  strokes (MaskSession.overlay cleared) = drawn_strokes /\
  MaskSession.maskStrokes touched = drawn_strokes /\
  MaskSession.maskStrokes touched <> [].
Proof.
  intros drawn cleared touched drawn_strokes.
  assert (Eo : MaskSession.overlay drawn =
               mkState false [] drawn_strokes).
  { subst drawn. rewrite session_overlay. apply gesture_appends. }
  assert (Em : MaskSession.maskStrokes drawn = drawn_strokes).
  { assert (Eg : gesture d ms u =
                 (let '(dp, dr, de) := d in
                  PointerDown dp dr de
                    :: map (fun m => let '(mp, mr, me) := m in
                                     PointerMove mp mr me) ms)
                 ++ [PointerUp u])
      by (destruct d as [[dp dr] de]; reflexivity).
    subst drawn. rewrite Eg in *.
    rewrite session_sync_last; [exact (f_equal strokes Eo)|].
    destruct d as [[dp dr] de]. cbn [run fold_left step].
    change (fold_left step ?l ?x) with (run x l).
    unfold handlePointerDown. rewrite run_moves. reflexivity. }
  split; [exact Em|]. split; [reflexivity|].
  split; [subst cleared; cbn [MaskSession.step MaskSession.overlay];
          rewrite Eo; reflexivity|].
  assert (Et : MaskSession.maskStrokes touched = drawn_strokes).
  { subst touched cleared.
    cbn [MaskSession.step MaskSession.overlay sets_state step].
    unfold handlePointerDown.
    cbn [repaint negb MaskSession.maskStrokes strokes].
    rewrite Eo. reflexivity. }
  split; [exact Et|]. rewrite Et. subst drawn_strokes.
  intros X. apply app_eq_nil in X. destruct X as [_ X]. discriminate X.
Qed.

End MaskSessionFacts.

(** ** The comparison slider *)

Section ComparisonSliderFacts.
Import ComparisonSlider.

Lemma handleMove_range (rect : option BrushOverlay.DOMRect) (st : State)
  (x : Q) :
  match rect with
  | Some r => 0 < BrushOverlay.rect_width r
  | None => True
  end ->
  0 <= sliderPosition st <= 100 ->
  0 <= sliderPosition (handleMove rect st x) <= 100.
Proof.
  intros Hr Hs. destruct rect as [r|]; [|exact Hs].
  cbn [handleMove sliderPosition].
  assert (N : ~ BrushOverlay.rect_width r == 0) by lra.
  split_min; split_max; name_quotients N; split; nra.
Qed.

Lemma step_range (st : State) (ev : Event) :
  laid_out ev ->
  0 <= sliderPosition st <= 100 ->
  0 <= sliderPosition (step st ev) <= 100.
Proof.
  intros Hl Hs. destruct ev as [| |rect e| |rect x]; cbn [step];
    unfold handlePointerDown, handlePointerUp, handlePointerMove,
      handleGlobalUp, handleGlobalMove;
    try destruct (isDragging st); try exact Hs;
    apply handleMove_range; assumption.
Qed.

(** X9.  Whatever pointer and mouse events the comparison slider receives
    after mounting, as long as its container is laid out (positive width)
    whenever it is measured, the slider position stays a percentage between 0
    and 100, and so does the right inset that clips the "before" image. *)
Theorem slider_stays_in_range (evs : list Event) :
  Forall laid_out evs ->
  let st := run mount evs in
  0 <= sliderPosition st <= 100 /\ 0 <= clip_right st <= 100.
Proof.
  intros Hl.
  assert (R : 0 <= sliderPosition (run mount evs) <= 100).
  { assert (R0 : 0 <= sliderPosition mount <= 100)
      by (split; vm_compute; discriminate).
    unfold run. generalize dependent mount.
    induction Hl as [|ev evs Hev Hevs IH]; intros st Hst; cbn [fold_left].
    - exact Hst.
    - apply IH. apply step_range; assumption. }
  cbv zeta. unfold clip_right. split; [exact R|]. split; lra.
Qed.

Lemma slider_stays_in_range_witness :
  let r := Some (BrushOverlay.mkRect 100 0 400 300) in
  let evs := [PointerDown; PointerMove r (mkPointerEvent 900 10);
              WindowMouseMove r (-20); PointerUp;
              PointerMove r (mkPointerEvent 250 10)] in
  0 <= sliderPosition (run mount evs) <= 100.
Proof.
  intros r evs. apply (slider_stays_in_range evs).
  repeat constructor.
Defined.

(** X10.  While the slider is dragged over a laid-out container, a pointer
    move puts it at the pointer's horizontal position in the container, as a
    percentage of the container's width: 0 at or left of the left edge, 100
    at or right of the right edge.  Without a drag, or without the
    container, a move leaves it where it was. *)
Theorem slider_tracks_pointer (rect : option BrushOverlay.DOMRect)
  (st : State) (e : PointerEvent) :
  (isDragging st = false -> handlePointerMove rect st e = st) /\
  (rect = None -> handlePointerMove rect st e = st) /\
  (forall r,
     rect = Some r -> isDragging st = true ->
     0 < BrushOverlay.rect_width r ->
     let off := clientX e - BrushOverlay.rect_left r in
     let pos := sliderPosition (handlePointerMove rect st e) in
     (0 <= off <= BrushOverlay.rect_width r ->
        pos == off / BrushOverlay.rect_width r * 100) /\
     (off <= 0 -> pos == 0) /\
     (BrushOverlay.rect_width r <= off -> pos == 100)).
Proof.
  split; [|split].
  - intros D. unfold handlePointerMove. rewrite D. reflexivity.
  - intros ->. unfold handlePointerMove. destruct (isDragging st); reflexivity.
  - intros r -> D Hw off pos. subst off pos.
    unfold handlePointerMove. rewrite D. cbn [handleMove sliderPosition].
    assert (N : ~ BrushOverlay.rect_width r == 0) by lra.
    assert (E1 : BrushOverlay.rect_width r / BrushOverlay.rect_width r == 1)
      by (field; exact N).
    assert (E0 : 0 / BrushOverlay.rect_width r == 0) by (field; exact N).
    split_min; split_max; repeat split; intros;
      try (exfalso; lra); try reflexivity;
      try (rewrite E1; reflexivity); try (rewrite E0; reflexivity).
    all: try (assert (Eo : clientX e - BrushOverlay.rect_left r
                           == BrushOverlay.rect_width r) by lra;
              rewrite Eo, E1; reflexivity).
    all: try (assert (Eo : clientX e - BrushOverlay.rect_left r == 0) by lra;
              rewrite Eo, E0; reflexivity).
    all: try (assert (Eo : BrushOverlay.rect_width r
                           == clientX e - BrushOverlay.rect_left r) by lra;
              rewrite <- Eo, E1; reflexivity).
Qed.

End ComparisonSliderFacts.

(** ** The editor's modes, export options and messages *)

Section EditorFacts.
Import Editor.

Lemma step_exclusive (st : State) (a : Action) :
  exclusive st -> exclusive (step st a).
Proof.
  intros Hex. unfold step.
  destruct (rendered st a) eqn:R; [|exact Hex].
  destruct st as [sc ma ce cd cm im ms ef eq ap ie oi pu].
  unfold exclusive in *.
  cbn [cropEnabled isMasking isExpanding isCompareMode] in Hex.
  destruct a; cbn [rendered isExpanding isMasking cropEnabled originalImage]
    in R; cbn [handle]; unfold handleApplyCrop;
    cbn [scale maintainAspect cropEnabled cropData isCompareMode isMasking
         maskStrokes exportFormat exportQuality aiPrompt isExpanding
         originalImage previewUrl].
  all: repeat match goal with
         | |- context [match ?x with _ => _ end] => is_var x; destruct x
         | |- context [match originalUrl ?i with _ => _ end] =>
             destruct (originalUrl i)
         | |- context [if String.eqb ?u ?v then _ else _] =>
             destruct (String.eqb u v)
         end.
  all: cbn [cropEnabled isMasking isExpanding isCompareMode negb andb] in *.
  all: try discriminate R.
  all: destruct Hex as (H1 & H2 & H3).
  all: repeat split; intros; try reflexivity; try discriminate;
    repeat match goal with
      | b : bool |- _ => destruct b
      end;
    try reflexivity; try discriminate;
    first [ destruct H1; [reflexivity|]; discriminate
          | discriminate (H2 eq_refl)
          | discriminate (H3 eq_refl) ].
Qed.

(** X11.  Whatever the user clicks and whatever loads, from the initial
    editor state on: at most one of crop mode, mask mode and expand mode is
    on, and crop mode is never on while the comparison slider is. *)
Theorem edit_modes_exclusive (acts : list Action) :
  let st := run initial acts in
  (cropEnabled st = true -> isMasking st = false /\ isExpanding st = false) /\
  (isMasking st = true -> isExpanding st = false) /\
  (cropEnabled st = true -> isCompareMode st = false).
Proof.
  assert (I0 : exclusive initial) by (repeat split; intros X; discriminate X).
  unfold run. generalize dependent initial.
  induction acts as [|a acts IH]; intros st Hst; cbn [fold_left].
  - exact Hst.
  - apply IH. apply step_exclusive. exact Hst.
Qed.

(** X12.  An export contains the crop only while crop mode is on.  The
    options [handleDownload] builds carry the crop region iff [cropEnabled];
    and "Apply" (the crop button pressed in crop mode, with a region and an
    image there) turns crop mode off while keeping the region, so that an
    export made afterwards draws the whole image. *)
Theorem export_ignores_applied_crop (st : State) :
  (cropEnabled st = true -> crop (downloadOptions st) = cropData st) /\
  (cropEnabled st = false -> crop (downloadOptions st) = None) /\
  (forall c im,
     cropEnabled st = true -> cropData st = Some c ->
     originalImage st = Some im ->
     isMasking st = false -> isExpanding st = false ->
     let st' := step st ClickCrop in
     cropEnabled st' = false /\ cropData st' = Some c /\
     crop (downloadOptions st') = None /\
     forall canvas img r,
       imageProcessor.processImage canvas img (downloadOptions st')
         = imageProcessor.Resolved r ->
       imageProcessor.sx r = 0 /\ imageProcessor.sy r = 0 /\
       imageProcessor.sw r = imageProcessor.img_width img /\
       imageProcessor.sh r = imageProcessor.img_height img).
Proof.
  split; [|split].
  - intros E. unfold downloadOptions. rewrite E. reflexivity.
  - intros E. unfold downloadOptions. rewrite E. reflexivity.
  - intros c im Ec Ed Ei Em Ex st'. subst st'.
    destruct st as [sc ma ce cd cm mk ms ef eq ap ie oi pu].
    cbn [cropEnabled cropData originalImage isMasking isExpanding]
      in Ec, Ed, Ei, Em, Ex.
    subst ce cd oi mk ie.
    unfold step. cbn [rendered isExpanding isMasking negb andb handle
                      cropEnabled].
    unfold handleApplyCrop. cbn [cropData originalImage].
    cbn [scale maintainAspect cropEnabled cropData isCompareMode isMasking
         maskStrokes exportFormat exportQuality aiPrompt isExpanding
         originalImage previewUrl downloadOptions crop].
    split; [reflexivity|]. split; [reflexivity|]. split; [reflexivity|].
    intros canvas img r E.
    destruct (processImage_geometry _ _ _ _ E) as (Hs & _).
    cbn [crop] in Hs. injection Hs as -> -> -> ->. repeat split.
Qed.

(** Substring facts for the prompt and the messages. *)
Lemma prefix_self_app (a b : string) : String.prefix a (a ++ b) = true.
Proof.
  induction a as [|ch a IH]; cbn.
  - destruct b; reflexivity.
  - destruct (Ascii.ascii_dec ch ch) as [_|N]; [exact IH|contradiction].
Qed.

Lemma includes_self_app (a b : string) : includes (a ++ b) a = true.
Proof.
  destruct a as [|ch a]; cbn.
  - destruct b; reflexivity.
  - pose proof (prefix_self_app (String ch a) b) as P. cbn in P.
    rewrite P. reflexivity.
Qed.

Lemma includes_app_left (pre s sub : string) :
  includes s sub = true -> includes (pre ++ s) sub = true.
Proof.
  intros E. induction pre as [|ch pre IH]; [exact E|].
  cbn [String.append includes]. rewrite IH. apply orb_true_r.
Qed.

Lemma includes_refl (a : string) : includes a a = true.
Proof.
  pose proof (includes_self_app a "") as E.
  assert (A : (a ++ "")%string = a).
  { clear E. induction a as [|ch a IH]; [reflexivity|].
    cbn. rewrite IH. reflexivity. }
  rewrite A in E. exact E.
Qed.

(** X13.  The prompt [handleAiEdit] sends always contains the user's
    text; in expand mode it is the fill instruction followed by that text
    (also when mask mode is on), otherwise in mask mode the red-area
    instruction around it, otherwise the text itself, or the default
    enhancement prompt when the text is empty. *)
Theorem final_prompt_contains_user_text (st : State) :
  includes (finalPrompt st) (aiPrompt st) = true /\
  (isExpanding st = true ->
     finalPrompt st =
       ("Fill in the empty white background areas to seamlessly match the scene. "
        ++ aiPrompt st)%string) /\
  (isExpanding st = false -> isMasking st = true ->
     finalPrompt st =
       ("Change the area highlighted in red to: " ++ aiPrompt st
        ++ ". Keep the rest of the image unchanged.")%string) /\
  (isExpanding st = false -> isMasking st = false ->
     finalPrompt st =
       if String.eqb (aiPrompt st) ""
       then "Enhance this image, high quality"%string
       else aiPrompt st).
Proof.
  unfold finalPrompt. split; [|split; [|split]].
  - destruct (isExpanding st); [|destruct (isMasking st)].
    + apply includes_app_left. apply includes_refl.
    + apply includes_app_left. apply includes_self_app.
    + destruct (String.eqb_spec (aiPrompt st) "") as [->|N].
      * reflexivity.
      * apply includes_refl.
  - intros ->. reflexivity.
  - intros -> ->. reflexivity.
  - intros -> ->. reflexivity.
Qed.

(** X14.  The editor displays an error only if its text contains "AI":
    every failure of the AI step ("AI Failed: ...", whatever the underlying
    message, the missing expansion preview included) is displayed, but the
    messages for a missing API key, a failed preview, a failed download and a
    failed expansion preview are set without ever being displayed there. *)
Theorem editor_displays_only_ai_failures :
  (forall m, editorShows (Some (aiFailed m)) = true) /\
  editorShows (Some msg_missing_key) = false /\
  editorShows (Some msg_preview) = false /\
  editorShows (Some msg_download) = false /\
  editorShows (Some msg_expansion) = false /\
  editorShows None = false.
Proof.
  split; [|repeat split; reflexivity].
  intros m. unfold editorShows, aiFailed. reflexivity.
Qed.

End EditorFacts.

(** ** The canvas services: failures, units and expansion *)

Section CanvasServices.
Import imageProcessor.

(** X15.  How the three canvas services end.  Each resolves exactly when
    the platform provides both the 2D context and the encoded blob.  Without
    the context each rejects with its own message.  With the context but
    without the blob, [processImage] and [compositeMaskOntoImage] reject,
    whereas [expandImageCanvas] neither resolves nor rejects: its promise
    stays pending. *)
Theorem canvas_services_failures (canvas : Canvas) (img : HTMLImageElement)
  (options : ProcessingOptions) (ratio : Q) (fillColor : string)
  (ss : list Stroke) (w h : Q) :
  let ok := getContext_ok canvas && toBlob_ok canvas in
  ((exists r, processImage canvas img options = Resolved r) <-> ok = true) /\
  ((exists r, expandImageCanvas canvas img ratio fillColor = Resolved r)
     <-> ok = true) /\
  ((exists r, compositeMaskOntoImage canvas img ss w h = Resolved r)
     <-> ok = true) /\
  (getContext_ok canvas = false ->
     processImage canvas img options
       = Rejected "Could not get canvas context" /\
     expandImageCanvas canvas img ratio fillColor = Rejected "Context failed" /\
     compositeMaskOntoImage canvas img ss w h = Rejected "Context failed") /\
  (getContext_ok canvas = true -> toBlob_ok canvas = false ->
     processImage canvas img options = Rejected "Canvas conversion failed" /\
     expandImageCanvas canvas img ratio fillColor = Pending /\
     compositeMaskOntoImage canvas img ss w h
       = Rejected "Mask composite failed").
Proof.
  intros ok. subst ok.
  unfold processImage, expandImageCanvas, compositeMaskOntoImage.
  destruct (getContext_ok canvas), (toBlob_ok canvas); cbn [negb andb].
  all: destruct (crop options) as [c|]; [destruct (crop_unit c)|].
  all: destruct (Qltb (img_width img / img_height img) ratio).
  all: repeat split; intros; try discriminate; try reflexivity;
    try (eexists; reflexivity);
    try match goal with
        | E : exists _, _ |- _ => destruct E as [? E]; discriminate E
        end.
Qed.



(** The two shapes of an expanded canvas. *)
Lemma expand_cases (canvas : Canvas) (img : HTMLImageElement) (ratio : Q)
  (fillColor : string) :
  getContext_ok canvas = true -> toBlob_ok canvas = true ->
  exists r,
    expandImageCanvas canvas img ratio fillColor = Resolved r /\
    draw_dx r = (newW r - img_width img) / 2 /\
    draw_dy r = (newH r - img_height img) / 2 /\
    ((img_width img / img_height img < ratio /\
      newW r = img_height img * ratio /\ newH r = img_height img) \/
     (ratio <= img_width img / img_height img /\
      newW r = img_width img /\ newH r = img_width img / ratio)).
Proof.
  intros C B. unfold expandImageCanvas. rewrite C, B. cbn [negb].
  destruct (Qltb_cases (img_width img / img_height img) ratio)
    as [[-> L]|[-> L]]; eexists; (split; [reflexivity|]);
    cbn [newW newH draw_dx draw_dy]; repeat split; auto.
Qed.




(** X18.  Expansion of an image that already has the target ratio changes
    nothing: the canvas has the image's size and the image is drawn at
    (0, 0).  Hence expanding twice to the same ratio is expanding once: an
    image with the dimensions of an expanded canvas keeps them. *)
Theorem expand_at_ratio_is_identity (canvas : Canvas)
  (img : HTMLImageElement) (ratio : Q) (fillColor : string) :
  0 < img_width img -> 0 < img_height img -> 0 < ratio ->
  getContext_ok canvas = true -> toBlob_ok canvas = true ->
  (img_width img / img_height img == ratio ->
   exists r,
     expandImageCanvas canvas img ratio fillColor = Resolved r /\
     newW r == img_width img /\ newH r == img_height img /\
     draw_dx r == 0 /\ draw_dy r == 0) /\
  (exists r r2,
     expandImageCanvas canvas img ratio fillColor = Resolved r /\
     expandImageCanvas canvas (mkImage (newW r) (newH r)) ratio fillColor
       = Resolved r2 /\
     newW r2 == newW r /\ newH r2 == newH r /\
     draw_dx r2 == 0 /\ draw_dy r2 == 0).
Proof.
  intros HW HH HR C B.
  assert (HRne : ~ ratio == 0) by lra.
  assert (Same : forall im,
            0 < img_width im -> 0 < img_height im ->
            img_width im / img_height im == ratio ->
            exists r,
              expandImageCanvas canvas im ratio fillColor = Resolved r /\
              newW r == img_width im /\ newH r == img_height im /\
              draw_dx r == 0 /\ draw_dy r == 0).
  { intros im Pw Ph Er.
    destruct (expand_cases canvas im ratio fillColor C B)
      as (r & E & Ex & Ey & Hc).
    exists r. split; [exact E|]. rewrite Ex, Ey.
    assert (Ne : ~ img_height im == 0) by lra.
    pose proof (div_mul_cancel (img_width im) _ Ne) as Ew.
    destruct Hc as [(L & _ & _)|(L & -> & ->)]; [exfalso; lra|].
    assert (G : img_width im / ratio == img_height im).
    { rewrite <- Er. field. split; [exact Ne|].
      intro Z. rewrite Z in Pw. lra. }
    rewrite G. repeat split; try reflexivity; field. }
  split; [apply Same; assumption|].
  destruct (expand_cases canvas img ratio fillColor C B)
    as (r & E & _ & _ & Hc).
  assert (HHne : ~ img_height img == 0) by lra.
  assert (P : 0 < newW r /\ 0 < newH r /\ newW r / newH r == ratio).
  { destruct Hc as [(L & -> & ->)|(L & -> & ->)].
    - split; [nra|]. split; [exact HH|]. field. exact HHne.
    - split; [exact HW|]. split.
      + apply (mul_lt_cancel _ _ ratio HR).
        rewrite (div_mul_cancel _ _ HRne). lra.
      + field. split; lra. }
  destruct P as (Pw & Ph & Pr).
  destruct (Same (mkImage (newW r) (newH r)) Pw Ph Pr) as (r2 & E2 & Hrest).
  exists r, r2. split; [exact E|]. split; [exact E2|]. exact Hrest.
Qed.

Lemma expand_at_ratio_is_identity_witness :
  exists r,
    expandImageCanvas (mkCanvas true true) (mkImage 1600 900) (16 # 9) "white"
      = Resolved r /\
    newW r == 1600 /\ newH r == 900.
Proof.
  destruct (expand_at_ratio_is_identity (mkCanvas true true)
              (mkImage 1600 900) (16 # 9) "white")
    as [H1 _]; try reflexivity.
  destruct H1 as (r & E & Hw & Hh & _); [reflexivity|].
  exists r. split; [exact E|]. split; [exact Hw|exact Hh].
Defined.

End CanvasServices.

(** ** From the crop overlay to the transform *)

Section CropToTransform.
Import CropOverlay.

Lemma onCropChange_inside (im : ImageState) (dim : Editor.ContainerDim)
  (ratio : Q) (c : CropArea) :
  0 < Editor.dim_w dim -> 0 < Editor.dim_h dim ->
  0 <= image_width im -> 0 <= image_height im ->
  inside (Editor.cropOverlayProps dim ratio) c ->
  0 <= crop_width c -> 0 <= crop_height c ->
  let n := Editor.onCropChange im dim c in
  0 <= crop_x n /\ 0 <= crop_y n /\
  0 <= crop_width n /\ 0 <= crop_height n /\
  crop_x n + crop_width n <= image_width im /\
  crop_y n + crop_height n <= image_height im.
Proof.
  intros HW HH Iw Ih (Hx & Hy & Hr & Hb) Pw Ph n. subst n.
  cbn [Editor.cropOverlayProps width height] in Hr, Hb.
  unfold Editor.onCropChange.
  cbn [crop_x crop_y crop_width crop_height].
  assert (Nw : ~ Editor.dim_w dim == 0) by lra.
  assert (Nh : ~ Editor.dim_h dim == 0) by lra.
  pose proof (div_mul_cancel (image_width im) _ Nw) as Ew.
  pose proof (div_mul_cancel (image_height im) _ Nh) as Eh.
  set (kx := image_width im / Editor.dim_w dim) in *.
  set (ky := image_height im / Editor.dim_h dim) in *.
  assert (Kx : 0 <= kx) by nra.
  assert (Ky : 0 <= ky) by nra.
  repeat split; nra.
Qed.

(** X19.  The transform never reads outside the image for a crop made with
    the overlay: for a measured container, under a ratio locked to a positive
    value or under the free ratio in a container at least 62.5 wide and high,
    every region the overlay emits, once mapped to image pixels by the
    application's [onCropChange], lies within the image, and so does the
    source rectangle [processImage] draws from when given it. *)
Theorem overlay_crop_within_image (im : ImageState)
  (dim : Editor.ContainerDim) (ratio : Q) (evs : list Event)
  (canvas : imageProcessor.Canvas) (s : Q) (m : bool) (f : ExportFormat)
  (q : Q) :
  0 < Editor.dim_w dim -> 0 < Editor.dim_h dim ->
  0 <= image_width im -> 0 <= image_height im ->
  0 < ratio \/
  (ratio == 0 /\ 125 # 2 <= Editor.dim_w dim /\ 125 # 2 <= Editor.dim_h dim) ->
  let p := Editor.cropOverlayProps dim ratio in
  let n := Editor.onCropChange im dim (st_crop (run p (initialized p) evs)) in
  (0 <= crop_x n /\ 0 <= crop_y n /\
   crop_x n + crop_width n <= image_width im /\
   crop_y n + crop_height n <= image_height im /\
   crop_unit n = px) /\
  forall r,
    imageProcessor.processImage canvas
      (imageProcessor.mkImage (image_width im) (image_height im))
      (mkOptions s m (Some n) f q) = imageProcessor.Resolved r ->
    0 <= imageProcessor.sx r /\ 0 <= imageProcessor.sy r /\
    imageProcessor.sx r + imageProcessor.sw r <= image_width im /\
    imageProcessor.sy r + imageProcessor.sh r <= image_height im.
Proof.
  intros HW HH Iw Ih Hmode p n.
  assert (Hc : inside p (st_crop (run p (initialized p) evs)) /\
               0 <= crop_width (st_crop (run p (initialized p) evs)) /\
               0 <= crop_height (st_crop (run p (initialized p) evs))).
  { destruct Hmode as [Hr|(Hr & Bw & Bh)].
    - destruct (reachable_locked p evs HW HH Hr) as (Hin & Pw & Ph & _).
      split; [exact Hin|]. split; lra.
    - destruct (reachable_free p evs Hr Bw Bh) as (Hin & Mw & Mh).
      split; [exact Hin|]. split; lra. }
  destruct Hc as (Hin & Pw & Ph).
  destruct (onCropChange_inside im dim ratio _ HW HH Iw Ih Hin Pw Ph)
    as (Nx & Ny & _ & _ & Nr & Nb).
  fold n in Nx, Ny, Nr, Nb.
  split; [repeat split; assumption|].
  intros r E.
  destruct (processImage_geometry _ _ _ _ E) as (Hs & _).
  cbn [crop] in Hs.
  assert (U : crop_unit n = px) by reflexivity. rewrite U in Hs.
  injection Hs as -> -> -> ->. repeat split; assumption.
Qed.

Lemma overlay_crop_within_image_witness :
  let im := mkImageState None None "a.png" 4000 3000 1 "image/png" in
  let dim := Editor.mkDim 400 300 in
  let p := Editor.cropOverlayProps dim 1 in
  let evs := [PointerDown (mkPointerEvent 0 0) "se";
              PointerMove (mkPointerEvent 900 900)] in
  let n := Editor.onCropChange im dim (st_crop (run p (initialized p) evs)) in
  crop_x n + crop_width n <= 4000 /\ crop_y n + crop_height n <= 3000.
Proof.
  intros im dim p evs n.
  destruct (overlay_crop_within_image im dim 1 evs
              (imageProcessor.mkCanvas true true) 1 true png 1)
    as ((_ & _ & Hr & Hb & _) & _);
    try reflexivity; try (vm_compute; discriminate).
  - left. reflexivity.
  - split; [exact Hr|exact Hb].
Defined.



(** The canvas of that export: the region is drawn into 1800 x 1012.5, on
    a canvas of 1800 x 1012. *)
Example locked_crop_export_canvas :
  let im := mkImageState None None "a.png" 4000 3000 1 "image/png" in
  let dim := Editor.mkDim 400 300 in
  let p := Editor.cropOverlayProps dim (16 # 9) in
  let evs := [PointerDown (mkPointerEvent 0 0) "se";
              PointerMove (mkPointerEvent 900 (-30))] in
  let n := Editor.onCropChange im dim (st_crop (run p (initialized p) evs)) in
  exists r,
    imageProcessor.processImage (imageProcessor.mkCanvas true true)
      (imageProcessor.mkImage 4000 3000)
      (mkOptions (1 # 2) true (Some n) jpeg (9 # 10))
      = imageProcessor.Resolved r /\
    imageProcessor.dw r == 1800 /\ imageProcessor.dh r == 2025 # 2 /\
    imageProcessor.element_width r = 1800%Z /\
    imageProcessor.element_height r = 1012%Z.
Proof.
  intros im dim p evs n. eexists. split; [reflexivity|].
  cbn [imageProcessor.dw imageProcessor.dh imageProcessor.element_width
       imageProcessor.element_height].
  split; [vm_compute; reflexivity|]. split; [vm_compute; reflexivity|].
  split; vm_compute; reflexivity.
Qed.

End CropToTransform.
